(** * Custom Olympic medal standings: the standings computation of
    [src/routes/index.tsx], embedded in Rocq.

    JavaScript numbers are IEEE 754 binary64 values; they are modelled by
    Rocq's primitive [float], whose operations are the same binary64
    operations (round to nearest, ties to even) and are specified by
    [SpecFloat].  JavaScript strings are modelled by [string]; a character
    stands for the UTF-16 code unit of the same number (U+0000 to U+00FF). *)

From Stdlib Require Import ZArith List String Ascii Bool Lia Floats.
From Stdlib Require Import Permutation Sorted DecimalString.
Import ListNotations.

Set Warnings "-inexact-float,-register-all".

Local Open Scope string_scope.
Local Open Scope Z_scope.

(** ** The JavaScript runtime operations the page relies on *)

Module JS.

(** *** Numbers *)

(** The Number value for a mathematical integer: the nearest binary64
    value, ties to even, overflowing to an infinity. *)
Definition SF_of_Z (z : Z) : spec_float := binary_normalize prec emax z 0 false.

Definition of_Z (z : Z) : float := SF2Prim (SF_of_Z z).

(** [ToNumber] of the result of a property read that may be [undefined]. *)
Definition toNumber (v : option float) : float :=
  match v with
  | Some x => x
  | None => nan
  end.

(** The decimal digits of a non-negative integer. *)
Definition string_of_Z (z : Z) : string :=
  NilZero.string_of_uint (N.to_uint (Z.to_N z)).

Fixpoint zeros (n : nat) : string :=
  match n with
  | O => EmptyString
  | S n' => String "0"%char (zeros n')
  end.

Definition take (n : nat) (s : string) : string := substring 0 n s.
Definition drop (n : nat) (s : string) : string := substring n (String.length s - n) s.

(** The nearest binary64 value of the positive rational [num / den]: the
    quotient is computed with more than 60 bits and a sticky last bit, then
    rounded once. *)
Definition SF_of_Q (num den : Z) : spec_float :=
  let t := Z.max 0 (64 + Z.log2 den - Z.log2 num) in
  let n := num * 2 ^ t in
  let q := n / den in
  let r := n mod den in
  binary_normalize prec emax (2 * q + (if r =? 0 then 0 else 1)) (- t - 1) false.

Definition SF_eqb (a b : spec_float) : bool :=
  match a, b with
  | S754_zero s, S754_zero s' => Bool.eqb s s'
  | S754_infinity s, S754_infinity s' => Bool.eqb s s'
  | S754_nan, S754_nan => true
  | S754_finite s m e, S754_finite s' m' e' =>
      Bool.eqb s s' && Pos.eqb m m' && Z.eqb e e'
  | _, _ => false
  end.

(** The decimal exponent [n] of the positive rational [num / den]:
    [10^(n-1) <= num / den < 10^n]. *)
Fixpoint scale_up (fuel : nat) (num den : Z) (j : Z) : Z :=
  match fuel with
  | O => j
  | S fuel' => if den <=? num * 10 ^ j then j else scale_up fuel' num den (j + 1)
  end.

Definition decimal_exponent (num den : Z) : Z :=
  if den <=? num
  then Z.of_nat (String.length (string_of_Z (num / den)))
  else 1 - scale_up 400 num den 1.

(** Number::toString, step 5: the digits [s], their number [k] and the
    exponent [n] with [s * 10^(n-k)] rounding to the value, [k] as small as
    possible and, among the candidates of that length, the closest one. *)
Fixpoint shortest_digits (fuel : nat) (x : spec_float) (num den n k : Z) : Z * Z * Z :=
  let unum := if k <=? n then 10 ^ (n - k) else 1 in
  let uden := if k <=? n then 1 else 10 ^ (k - n) in
  let V := num * uden in
  let U := unum * den in
  let lo := V / U in
  let r := V mod U in
  let hi := lo + 1 in
  let lo_ok := SF_eqb (SF_of_Q (lo * unum) uden) x in
  let hi_ok := SF_eqb (SF_of_Q (hi * unum) uden) x in
  let pick_lo := lo_ok && (negb hi_ok || (2 * r <? U) || ((2 * r =? U) && Z.even lo)) in
  let hi_res := if hi =? 10 ^ k then (10 ^ (k - 1), k, n + 1) else (hi, k, n) in
  match fuel with
  | O => if pick_lo then (lo, k, n) else hi_res
  | S fuel' =>
      if pick_lo then (lo, k, n)
      else if hi_ok then hi_res
      else shortest_digits fuel' x num den n (k + 1)
  end.

(** Number::toString of a positive finite value with mantissa [m] and
    binary exponent [e], steps 5 to 10. *)
Definition toString_finite (m : positive) (e : Z) : string :=
  let num := if 0 <=? e then Z.pos m * 2 ^ e else Z.pos m in
  let den := if 0 <=? e then 1 else 2 ^ (- e) in
  let n0 := decimal_exponent num den in
  let '(s, k, n) := shortest_digits 16 (S754_finite false m e) num den n0 1 in
  let ds := string_of_Z s in
  if (k <=? n) && (n <=? 21) then ds ++ zeros (Z.to_nat (n - k))
  else if (0 <? n) && (n <=? 21) then
    take (Z.to_nat n) ds ++ "." ++ drop (Z.to_nat n) ds
  else if (-6 <? n) && (n <=? 0) then "0." ++ zeros (Z.to_nat (- n)) ++ ds
  else
    let ex := n - 1 in
    let es := (if ex <? 0 then "-" else "+") ++ string_of_Z (Z.abs ex) in
    if k =? 1 then ds ++ "e" ++ es
    else take 1 ds ++ "." ++ drop 1 ds ++ "e" ++ es.

(** Number::toString (radix 10), as a template literal applies it. *)
Definition Number_toString (x : float) : string :=
  match Prim2SF x with
  | S754_nan => "NaN"
  | S754_zero _ => "0"
  | S754_infinity s => if s then "-Infinity" else "Infinity"
  | S754_finite s m e => (if s then "-" else "") ++ toString_finite m e
  end.

(** Number.prototype.toFixed(0): a non-finite value prints as Number::toString
    does; a magnitude of at least 1e21 likewise; otherwise the integer [n]
    with [n - x] closest to zero, the larger one of two. *)
Definition round_half_up (m : positive) (e : Z) : Z :=
  if 0 <=? e then Z.pos m * 2 ^ e
  else (Z.pos m + 2 ^ (- e - 1)) / 2 ^ (- e).

Definition toFixed0 (x : float) : string :=
  match Prim2SF x with
  | S754_nan => "NaN"
  | S754_zero _ => "0"
  | S754_infinity s => if s then "-Infinity" else "Infinity"
  | S754_finite s m e =>
      (if s then "-" else "") ++
      (if (1e21 <=? abs x)%float then toString_finite m e
       else string_of_Z (round_half_up m e))
  end.

(** *** parseInt *)

(** WhiteSpace and LineTerminator code units (TrimString). *)
Definition isWhiteSpace (c : ascii) : bool :=
  let n := Z.of_N (N_of_ascii c) in
  ((9 <=? n) && (n <=? 13)) || (n =? 32) || (n =? 160).

Fixpoint trimStart (s : string) : string :=
  match s with
  | String c r => if isWhiteSpace c then trimStart r else s
  | EmptyString => s
  end.

Definition digit_value (c : ascii) : option Z :=
  let n := Z.of_N (N_of_ascii c) in
  if (48 <=? n) && (n <=? 57) then Some (n - 48)
  else if (97 <=? n) && (n <=? 122) then Some (n - 87)
  else if (65 <=? n) && (n <=? 90) then Some (n - 55)
  else None.

(** The digits of the longest prefix made of radix-[R] digits. *)
Fixpoint radix_digits (R : Z) (s : string) : list Z :=
  match s with
  | String c r =>
      match digit_value c with
      | Some d => if d <? R then d :: radix_digits R r else []
      | None => []
      end
  | EmptyString => []
  end.

Definition mathInt (R : Z) (ds : list Z) : Z :=
  fold_left (fun acc d => acc * R + d) ds 0.

Definition strip_sign (s : string) : bool * string :=
  match s with
  | String "-"%char r => (true, r)
  | String "+"%char r => (false, r)
  | _ => (false, s)
  end.

Definition strip_prefix (s : string) : Z * string :=
  match s with
  | String "0"%char (String "x"%char r) => (16, r)
  | String "0"%char (String "X"%char r) => (16, r)
  | _ => (10, s)
  end.

(** [parseInt(string)] with no radix argument. *)
Definition parseInt (input : string) : float :=
  let '(neg, S1) := strip_sign (trimStart input) in
  let '(R, S2) := strip_prefix S1 in
  match radix_digits R S2 with
  | [] => nan
  | ds =>
      let i := mathInt R ds in
      if i =? 0 then (if neg then neg_zero else zero)
      else of_Z (if neg then - i else i)
  end.

End JS.

(** ** Feed validation (lines 11-51): the zod schemas *)

(** A value produced by [JSON.parse].  An object is its list of own
    properties; a property read finds the binding of the key, if any. *)
Inductive json : Type :=
  | JNull
  | JBool (b : bool)
  | JNumber (x : float)
  | JString (s : string)
  | JArray (items : list json)
  | JObject (props : list (string * json)).

Fixpoint get_prop (k : string) (props : list (string * json)) : option json :=
  match props with
  | [] => None
  | (k', v) :: rest => if String.eqb k k' then Some v else get_prop k rest
  end.

Module Zod.

(** The schema constructors the page uses, as zod 3 defines them:
    [z.string()], [z.number()], [.nullable()], [z.array(..)] and
    [z.object({..})]. *)
Inductive ZodType : Type :=
  | string_
  | number_
  | nullable (inner : ZodType)
  | array (element : ZodType)
  | object (shape : list (string * ZodType)).

Inductive segment : Type :=
  | Key (k : string)
  | Index (i : nat).

Definition path := list segment.

(** The outcome of [schema.parse]: the parsed value, or the paths of the
    issues of the [ZodError] it throws. *)
Inductive ParseReturn : Type :=
  | OK (value : json)
  | INVALID (issues : list path).

Section Nested.

(** The parser of the nested schemas: of the element type under an index,
    of the type of a key under that key. *)
Variable parse_at : ZodType -> path -> option json -> ParseReturn.
Variable at_ : path.

(** The items of an array, each parsed under its index. *)
Fixpoint parse_items (element : ZodType) (i : nat) (items : list json)
    : list json * list path :=
  match items with
  | [] => ([], [])
  | x :: rest =>
      let '(vs, is_) := parse_items element (S i) rest in
      match parse_at element (at_ ++ [Index i])%list (Some x) with
      | OK v => (v :: vs, is_)
      | INVALID i1 => (vs, (i1 ++ is_)%list)
      end
  end.

(** The keys of a shape, each read from the properties and parsed. *)
Fixpoint parse_shape (props : list (string * json)) (shape : list (string * ZodType))
    : list (string * json) * list path :=
  match shape with
  | [] => ([], [])
  | (k, tk) :: rest =>
      let '(vs, is_) := parse_shape props rest in
      match parse_at tk (at_ ++ [Key k])%list (get_prop k props) with
      | OK v => ((k, v) :: vs, is_)
      | INVALID i1 => (vs, (i1 ++ is_)%list)
      end
  end.

End Nested.

(** [_parse]: [data] is [None] for [undefined], the value of a missing
    key.  [z.number()] takes a number that is not NaN and nothing else;
    [z.object] reads each key of its shape, keeps the parsed values of those
    keys only and reports every issue below it. *)
Fixpoint parse (t : ZodType) (at_ : path) (data : option json) {struct t} : ParseReturn :=
  match t with
  | string_ =>
      match data with
      | Some (JString s) => OK (JString s)
      | _ => INVALID [at_]
      end
  | number_ =>
      match data with
      | Some (JNumber x) => if is_nan x then INVALID [at_] else OK (JNumber x)
      | _ => INVALID [at_]
      end
  | nullable inner =>
      match data with
      | Some JNull => OK JNull
      | _ => parse inner at_ data
      end
  | array element =>
      match data with
      | Some (JArray items) =>
          match parse_items (fun t' => parse t') at_ element 0 items with
          | (vs, []) => OK (JArray vs)
          | (_, is_) => INVALID is_
          end
      | _ => INVALID [at_]
      end
  | object shape =>
      match data with
      | Some (JObject props) =>
          match parse_shape (fun t' => parse t') at_ props shape with
          | (vs, []) => OK (JObject vs)
          | (_, is_) => INVALID is_
          end
      | _ => INVALID [at_]
      end
  end.

End Zod.

Import Zod.

Definition medalTableInfoSchema : ZodType :=
  object
    [ ("c_AsOfDate", string_);
      ("n_EventsTotal", number_);
      ("n_EventsFinished", number_);
      ("n_EventsScheduled", number_);
      ("n_MedalsGold", number_);
      ("n_MedalsSilver", number_);
      ("n_MedalsBronze", number_);
      ("n_MedalsTotal", number_);
      ("n_SportID", number_);
      ("c_Sport", nullable string_);
      ("c_SportShort", nullable string_) ].

Definition medalTableNOCSchema : ZodType :=
  object
    [ ("n_NOCID", number_);
      ("n_NOCGeoID", number_);
      ("c_NOC", string_);
      ("c_NOCShort", string_);
      ("n_Gold", number_);
      ("n_Silver", number_);
      ("n_Bronze", number_);
      ("n_Total", number_);
      ("n_RankGold", number_);
      ("n_RankSortGold", number_);
      ("n_RankTotal", number_);
      ("n_RankSortTotal", number_) ].

Definition medalTableSchema : ZodType :=
  object
    [ ("MedalTableInfo", medalTableInfoSchema);
      ("MedalTableNOC", array medalTableNOCSchema) ].

(** [medalTableSchema.parse(json)], the body of the [useMedals] loader once
    the response is read. *)
Definition useMedals (response : json) : ParseReturn :=
  parse medalTableSchema [] (Some response).

(** The schema of the time service response (lines 53-56), and the parse of
    line 61 in the [useServerTime] loader. *)
Definition timeSchema : ZodType :=
  object
    [ ("timezone", string_);
      ("unixtime", number_) ].

Definition timeSchema_parse (response : json) : ParseReturn :=
  parse timeSchema [] (Some response).

(** [z.infer<typeof medalTableNOCSchema>] *)
Record MedalTableNOC : Type := {
  n_NOCID : float;
  n_NOCGeoID : float;
  c_NOC : string;
  c_NOCShort : string;
  n_Gold : float;
  n_Silver : float;
  n_Bronze : float;
  n_Total : float;
  n_RankGold : float;
  n_RankSortGold : float;
  n_RankTotal : float;
  n_RankSortTotal : float
}.

Definition get_number (k : string) (props : list (string * json)) : option float :=
  match get_prop k props with
  | Some (JNumber x) => Some x
  | _ => None
  end.

Definition get_string (k : string) (props : list (string * json)) : option string :=
  match get_prop k props with
  | Some (JString s) => Some s
  | _ => None
  end.

Definition bind {A B : Type} (o : option A) (f : A -> option B) : option B :=
  match o with
  | Some a => f a
  | None => None
  end.

Notation "x <- e ;; k" := (bind e (fun x => k))
  (at level 61, e at next level, right associativity).

(** The typed view of a parsed country record. *)
Definition as_MedalTableNOC (v : json) : option MedalTableNOC :=
  match v with
  | JObject o =>
      id_ <- get_number "n_NOCID" o ;;
      geo <- get_number "n_NOCGeoID" o ;;
      noc <- get_string "c_NOC" o ;;
      short <- get_string "c_NOCShort" o ;;
      g <- get_number "n_Gold" o ;;
      s <- get_number "n_Silver" o ;;
      b <- get_number "n_Bronze" o ;;
      t <- get_number "n_Total" o ;;
      rg <- get_number "n_RankGold" o ;;
      rsg <- get_number "n_RankSortGold" o ;;
      rt <- get_number "n_RankTotal" o ;;
      rst <- get_number "n_RankSortTotal" o ;;
      Some {| n_NOCID := id_; n_NOCGeoID := geo; c_NOC := noc; c_NOCShort := short;
              n_Gold := g; n_Silver := s; n_Bronze := b; n_Total := t;
              n_RankGold := rg; n_RankSortGold := rsg;
              n_RankTotal := rt; n_RankSortTotal := rst |}
  | _ => None
  end.

(** The country records of a parsed feed, [medals.value.MedalTableNOC]. *)
Definition countries_of (feed : json) : list MedalTableNOC :=
  match feed with
  | JObject o =>
      match get_prop "MedalTableNOC" o with
      | Some (JArray items) =>
          flat_map (fun v => match as_MedalTableNOC v with
                             | Some c => [c]
                             | None => []
                             end) items
      | _ => []
      end
  | _ => []
  end.

(** ** Labels, scores and number formatting (lines 73-114) *)

Import JS.

Local Open Scope float_scope.

Definition getWeightText (weight : string) : string :=
  let num := parseInt weight in
  if num =? 0 then "Tiebreaker"%string
  else if num =? 1 then "1 point"%string
  else (Number_toString num ++ " points")%string.

Section Population.

(** The table of [~/data/population], which is not part of the sources at
    hand: [population short] is the number the table holds for the short
    code, [None] when it holds none (the read gives [undefined]). *)
Variable population : string -> option float.

Definition getIndex (team : MedalTableNOC)
    (goldWeight silverWeight bronzeWeight : string)
    (divideByPopulation : bool) : float :=
  (n_Gold team * (parseInt goldWeight + 10e-6) +
   n_Silver team * (parseInt silverWeight + 10e-9) +
   n_Bronze team * (parseInt bronzeWeight + 10e-12)) /
  (if divideByPopulation then toNumber (population (c_NOCShort team)) else 1).

Definition formatBigNumber (num : float) : string :=
  if num <? 1e3 then toFixed0 num
  else if num <? 1e6 then (toFixed0 (num / 1e3) ++ "K")%string
  else if num <? 1e9 then (toFixed0 (num / 1e6) ++ "M")%string
  else (toFixed0 (num / 1e9) ++ "B")%string.

Definition defaultGoldWeight : string := "3".
Definition defaultSilverWeight : string := "2".
Definition defaultBronzeWeight : string := "1".

(** ** The configuration and the address bar (lines 120-164) *)

(** [URLSearchParams]: the list of name-value pairs of the query. *)
Definition URLSearchParams := list (string * string).

Fixpoint searchParams_get (name : string) (ps : URLSearchParams) : option string :=
  match ps with
  | [] => None
  | (k, v) :: rest => if String.eqb k name then Some v else searchParams_get name rest
  end.

Definition searchParams_has (name : string) (ps : URLSearchParams) : bool :=
  existsb (fun kv => String.eqb (fst kv) name) ps.

Definition searchParams_delete (name : string) (ps : URLSearchParams) : URLSearchParams :=
  filter (fun kv => negb (String.eqb (fst kv) name)) ps.

(** [set]: the first pair of that name takes the value and the others go;
    with no such pair, one is appended. *)
Fixpoint searchParams_set (name value : string) (ps : URLSearchParams) : URLSearchParams :=
  match ps with
  | [] => [(name, value)]
  | (k, v) :: rest =>
      if String.eqb k name then (name, value) :: searchParams_delete name rest
      else (k, v) :: searchParams_set name value rest
  end.

(** The four signals of the component. *)
Record Signals : Type := {
  goldWeight : string;
  silverWeight : string;
  bronzeWeight : string;
  divideByPopulation : bool
}.

(** [a ?? b] *)
Definition nullish (a : option string) (b : string) : string :=
  match a with
  | Some v => v
  | None => b
  end.

(** The initial values of the signals, read from [loc.url.searchParams]. *)
Definition initSignals (ps : URLSearchParams) : Signals :=
  {| goldWeight := nullish (searchParams_get "gold" ps) defaultGoldWeight;
     silverWeight := nullish (searchParams_get "silver" ps) defaultSilverWeight;
     bronzeWeight := nullish (searchParams_get "bronze" ps) defaultBronzeWeight;
     divideByPopulation := searchParams_has "population" ps |}.

(** The visible task: the query of the URL it hands to
    [history.replaceState], from the signals and the query of [loc.url]. *)
Definition syncSearchParams (sig : Signals) (ps : URLSearchParams) : URLSearchParams :=
  let ps1 :=
    if String.eqb (goldWeight sig) defaultGoldWeight
    then searchParams_delete "gold" ps
    else searchParams_set "gold" (goldWeight sig) ps in
  let ps2 :=
    if String.eqb (silverWeight sig) defaultSilverWeight
    then searchParams_delete "silver" ps1
    else searchParams_set "silver" (silverWeight sig) ps1 in
  let ps3 :=
    if String.eqb (bronzeWeight sig) defaultBronzeWeight
    then searchParams_delete "bronze" ps2
    else searchParams_set "bronze" (bronzeWeight sig) ps2 in
  if divideByPopulation sig
  then searchParams_set "population" "true" ps3
  else searchParams_delete "population" ps3.

(** ** Ranking and rendering (lines 336-408) *)

(** [Array.prototype.sort(comparefn)].  The sort is stable, and a comparator
    result that is NaN counts as 0; an element [x] goes behind [y] exactly
    when [comparefn(x, y) > 0].  For a consistent comparator this fixes the
    result, computed here by insertion from the right. *)
Section ArraySort.

Context {A : Type}.
Variable comparefn : A -> A -> float.

Fixpoint sort_insert (x : A) (sorted : list A) : list A :=
  match sorted with
  | [] => [x]
  | y :: rest =>
      if 0 <? comparefn x y then y :: sort_insert x rest
      else x :: y :: rest
  end.

Fixpoint Array_sort (items : list A) : list A :=
  match items with
  | [] => []
  | x :: rest => sort_insert x (Array_sort rest)
  end.

End ArraySort.

(** The comparator of line 337: [(a, b) => getIndex(b, ..) - getIndex(a, ..)]. *)
Definition compareTeams (sig : Signals) (a b : MedalTableNOC) : float :=
  getIndex b (goldWeight sig) (silverWeight sig) (bronzeWeight sig) (divideByPopulation sig) -
  getIndex a (goldWeight sig) (silverWeight sig) (bronzeWeight sig) (divideByPopulation sig).

(** The integer-weighted total of lines 395-397 and 402-404. *)
Definition weightedTotal (sig : Signals) (team : MedalTableNOC) : float :=
  n_Gold team * parseInt (goldWeight sig) +
  n_Silver team * parseInt (silverWeight sig) +
  n_Bronze team * parseInt (bronzeWeight sig).

(** The text of the last cell of a row (lines 388-406), without the
    "1 in" caption of the population mode. *)
Definition pointsCell (sig : Signals) (team : MedalTableNOC) : string :=
  if divideByPopulation sig
  then formatBigNumber (toNumber (population (c_NOCShort team)) / weightedTotal sig team)
  else Number_toString (weightedTotal sig team).

(** What the component works on: the array [medals.value.MedalTableNOC],
    which [sort] reorders in place, and the signals. *)
Record Store : Type := {
  MedalTableNOC_array : list MedalTableNOC;
  signals : Signals
}.

(** A rendered row: the rank shown, the team, the last cell. *)
Record Row : Type := {
  row_rank : nat;
  row_team : MedalTableNOC;
  row_points : string
}.

Fixpoint rows_from (sig : Signals) (i : nat) (teams : list MedalTableNOC) : list Row :=
  match teams with
  | [] => []
  | team :: rest =>
      {| row_rank := i + 1; row_team := team; row_points := pointsCell sig team |}
      :: rows_from sig (S i) rest
  end.

(** One rendering of the table body: the array is sorted in place, then
    mapped to rows.  The store after it holds the sorted array. *)
Definition render (st : Store) : list Row * Store :=
  let sorted := Array_sort (compareTeams (signals st)) (MedalTableNOC_array st) in
  (rows_from (signals st) 0 sorted,
   {| MedalTableNOC_array := sorted; signals := signals st |}).

End Population.

(** ** The specification's vocabulary *)

Module Spec.

(** RankingConfig: three integer weights and the normalisation flag. *)
Record RankingConfig : Type := {
  cfg_gold : Z;
  cfg_silver : Z;
  cfg_bronze : Z;
  normalizeByPopulation : bool
}.

(** The signals holding a configuration: a range input holds the decimal
    text of its value. *)
Definition signals_of (c : RankingConfig) : Signals :=
  {| goldWeight := string_of_Z (cfg_gold c);
     silverWeight := string_of_Z (cfg_silver c);
     bronzeWeight := string_of_Z (cfg_bronze c);
     divideByPopulation := normalizeByPopulation c |}.

(** The score formula in the specification's words, with its epsilons
    1e-5, 1e-8 and 1e-11. *)
Definition score (c : MedalTableNOC) (gw sw bw : Z) (divisor : float) : float :=
  (n_Gold c * (of_Z gw + 1e-5) +
   n_Silver c * (of_Z sw + 1e-8) +
   n_Bronze c * (of_Z bw + 1e-11)) / divisor.

(** A weight string starts with a parsable integer when, after leading
    white space and an optional sign, a decimal digit comes. *)
Definition is_decimal_digit (c : ascii) : bool :=
  let n := Z.of_N (N_of_ascii c) in
  ((48 <=? n) && (n <=? 57))%Z.

Definition starts_with_integer (s : string) : bool :=
  match snd (strip_sign (trimStart s)) with
  | String c _ => is_decimal_digit c
  | EmptyString => false
  end.

(** Where a payload deviates from a schema.  [locate t d p] follows the
    path [p] through the schema and the data together and gives the type
    declared there with the value found there ([None]: the key is
    missing). *)
Fixpoint strip_nullable (t : ZodType) : ZodType :=
  match t with
  | nullable inner => strip_nullable inner
  | _ => t
  end.

Fixpoint shape_get (k : string) (shape : list (string * ZodType)) : option ZodType :=
  match shape with
  | [] => None
  | (k', t) :: rest => if String.eqb k k' then Some t else shape_get k rest
  end.

Fixpoint locate (t : ZodType) (d : option json) (p : path)
    : option (ZodType * option json) :=
  match p with
  | [] => Some (t, d)
  | seg :: p' =>
      match strip_nullable t, seg, d with
      | object shape, Key k, Some (JObject props) =>
          match shape_get k shape with
          | Some tk => locate tk (get_prop k props) p'
          | None => None
          end
      | array element, Index i, Some (JArray items) =>
          match nth_error items i with
          | Some x => locate element (Some x) p'
          | None => None
          end
      | _, _, _ => None
      end
  end.

(** The value has the kind the type declares (looking no deeper). *)
Fixpoint kind_ok (t : ZodType) (d : option json) : bool :=
  match t, d with
  | string_, Some (JString _) => true
  | number_, Some (JNumber x) => negb (is_nan x)
  | nullable inner, Some JNull => true
  | nullable inner, _ => kind_ok inner d
  | array _, Some (JArray _) => true
  | object _, Some (JObject _) => true
  | _, _ => false
  end.

(** A schema deviation at path [p]: the place is declared, and what is
    there (or its absence) is not of the declared kind. *)
Definition deviates_at (t : ZodType) (d : option json) (p : path) : Prop :=
  exists tp dp, locate t d p = Some (tp, dp) /\ kind_ok tp dp = false.

End Spec.

(** ** Sample data *)

Module Sample.

Definition team (id_ : float) (name short : string) (g s b : float) : MedalTableNOC :=
  {| n_NOCID := id_; n_NOCGeoID := id_; c_NOC := name; c_NOCShort := short;
     n_Gold := g; n_Silver := s; n_Bronze := b; n_Total := g + s + b;
     n_RankGold := 1; n_RankSortGold := 1; n_RankTotal := 1; n_RankSortTotal := 1 |}.

Definition A : MedalTableNOC := team 1 "Aland" "AAA" 1 0 0.
Definition B : MedalTableNOC := team 2 "Bolivia" "BBB" 0 3 3.
Definition Z0 : MedalTableNOC := team 3 "Zero" "ZZZ" 0 0 0.

(** A population table with an entry for AAA and ZZZ and none for BBB. *)
Definition population (short : string) : option float :=
  if String.eqb short "AAA" then Some 30000
  else if String.eqb short "ZZZ" then Some 1000
  else None.

Definition defaults : Signals :=
  {| goldWeight := "3"; silverWeight := "2"; bronzeWeight := "1";
     divideByPopulation := false |}.

Definition perCapita : Signals :=
  {| goldWeight := "3"; silverWeight := "2"; bronzeWeight := "1";
     divideByPopulation := true |}.

Definition nocJson (id_ : float) (name short : string) (g s b : json) : json :=
  JObject
    [ ("n_NOCID", JNumber id_); ("n_NOCGeoID", JNumber id_);
      ("c_NOC", JString name); ("c_NOCShort", JString short);
      ("n_Gold", g); ("n_Silver", s); ("n_Bronze", b);
      ("n_Total", JNumber 6);
      ("n_RankGold", JNumber 1); ("n_RankSortGold", JNumber 1);
      ("n_RankTotal", JNumber 1); ("n_RankSortTotal", JNumber 1) ].

Definition infoJson : json :=
  JObject
    [ ("c_AsOfDate", JString "2024-08-01T12:00:00");
      ("n_EventsTotal", JNumber 329);
      ("n_EventsFinished", JNumber 100);
      ("n_EventsScheduled", JNumber 229);
      ("n_MedalsGold", JNumber 100);
      ("n_MedalsSilver", JNumber 100);
      ("n_MedalsBronze", JNumber 110);
      ("n_MedalsTotal", JNumber 310);
      ("n_SportID", JNumber 0);
      ("c_Sport", JNull);
      ("c_SportShort", JNull) ].

Definition feed (nocs : list json) : json :=
  JObject [ ("MedalTableInfo", infoJson); ("MedalTableNOC", JArray nocs) ].

Definition goodFeed : json :=
  feed [ nocJson 1 "Aland" "AAA" (JNumber 1) (JNumber 0) (JNumber 0);
         nocJson 2 "Bolivia" "BBB" (JNumber 0) (JNumber 3) (JNumber 3) ].

(** The same feed with the silver count of the second country as the
    string "3". *)
Definition stringFeed : json :=
  feed [ nocJson 1 "Aland" "AAA" (JNumber 1) (JNumber 0) (JNumber 0);
         nocJson 2 "Bolivia" "BBB" (JNumber 0) (JString "3") (JNumber 3) ].

End Sample.

(** ** Notions used in the proofs *)

(** One write of the visible task to the query: the named parameter is
    deleted or set. *)
Definition writes (name : string) (ps ps' : URLSearchParams) : Prop :=
  ps' = searchParams_delete name ps \/ exists v, ps' = searchParams_set name v ps.

(** An integer that orders the binary64 values other than NaN as the
    comparisons do: the value scaled by 2^1074, beyond every finite one for
    the infinities. *)
Definition key_infinity : Z := 2 ^ 2098.

Definition SFkey (x : spec_float) : Z :=
  match x with
  | S754_zero _ => 0
  | S754_nan => 0
  | S754_infinity s => cond_Zopp s key_infinity
  | S754_finite s m e => cond_Zopp s (Z.pos m * 2 ^ (e + 1074))
  end.

Definition key (x : float) : Z := SFkey (Prim2SF x).

(** The score of a team under the signals, as the comparator computes it. *)
Definition scoreOf (population : string -> option float) (sig : Signals)
    (team : MedalTableNOC) : float :=
  getIndex population team (goldWeight sig) (silverWeight sig) (bronzeWeight sig)
    (divideByPopulation sig).

(** ** Further notions used in the proofs *)

(** The four parameter names the visible task writes. *)
Definition isConfigName (name : string) : bool :=
  String.eqb name "gold" || String.eqb name "silver" ||
  String.eqb name "bronze" || String.eqb name "population".

(** The pairs of a query under other names, in their order. *)
Definition otherParams (ps : URLSearchParams) : URLSearchParams :=
  filter (fun kv => negb (isConfigName (fst kv))) ps.

(** How many pairs of a query have the name. *)
Definition occurrences (name : string) (ps : URLSearchParams) : nat :=
  List.length (filter (fun kv => String.eqb (fst kv) name) ps).

(** What the visible task does with one parameter, and a query on which
    doing it changes nothing: the name is absent for a deletion, present
    once with the value for a setting. *)
Inductive action : Type :=
  | Del
  | Put (value : string).

Definition act (name : string) (a : action) (ps : URLSearchParams) : URLSearchParams :=
  match a with
  | Del => searchParams_delete name ps
  | Put v => searchParams_set name v ps
  end.

Definition settled (name : string) (a : action) (ps : URLSearchParams) : Prop :=
  match a with
  | Del => occurrences name ps = 0%nat
  | Put v => occurrences name ps = 1%nat /\ searchParams_get name ps = Some v
  end.

Definition weightAction (value default : string) : action :=
  if String.eqb value default then Del else Put value.

Definition flagAction (flag : bool) : action :=
  if flag then Put "true" else Del.

(** The pairs of a query under the four names, in their order. *)
Definition configParams (ps : URLSearchParams) : URLSearchParams :=
  filter (fun kv => isConfigName (fst kv)) ps.

(** Whether the Number of a small integer prints as its decimal digits. *)
Definition prints_decimal (n : nat) : bool :=
  String.eqb (Number_toString (of_Z (Z.of_nat n))) (string_of_Z (Z.of_nat n)).

(** The last character of a string. *)
Fixpoint last_char (s : string) : option ascii :=
  match s with
  | EmptyString => None
  | String c EmptyString => Some c
  | String _ r => last_char r
  end.

(** A shape comes from an object literal: its keys are distinct, here and
    in the schemas below. *)
Fixpoint distinct (keys : list string) : bool :=
  match keys with
  | [] => true
  | k :: rest => negb (existsb (String.eqb k) rest) && distinct rest
  end.

Fixpoint well_formed (t : ZodType) : bool :=
  match t with
  | string_ => true
  | number_ => true
  | nullable inner => well_formed inner
  | array element => well_formed element
  | object shape =>
      distinct (map fst shape) && forallb (fun kt => well_formed (snd kt)) shape
  end.

(** The keys an object schema declares. *)
Definition shape_keys (t : ZodType) : list string :=
  match t with
  | object shape => map fst shape
  | _ => []
  end.

(** The binary64 value of a positive integer below 2^53: the integer shifted
    to 53 bits. *)
Definition canon (s : bool) (N : positive) : spec_float :=
  S754_finite s (Z.to_pos (Z.pos N * 2 ^ (53 - Z.pos (digits2_pos N))))
    (Z.pos (digits2_pos N) - 53).

(** * Properties *)

Import Spec.

(** ** Facts about binary64 values *)

Lemma Prim2SF_nan_eq (x : float) : Prim2SF x = S754_nan -> x = nan.
Proof.
  intro H. apply Prim2SF_inj. rewrite H. reflexivity.
Qed.

Lemma div_nan_r (x : float) : x / nan = nan.
Proof.
  apply Prim2SF_nan_eq. rewrite div_spec.
  change (Prim2SF nan) with S754_nan.
  destruct (Prim2SF x); reflexivity.
Qed.

Lemma eqb_zero_cases (x : float) : (x =? 0) = true -> x = zero \/ x = neg_zero.
Proof.
  rewrite eqb_spec. change (Prim2SF 0) with (S754_zero false).
  intro H.
  destruct (Prim2SF x) as [s | s | | s m e] eqn:E;
    try destruct s; try discriminate H;
    [right | left]; apply Prim2SF_inj; rewrite E; reflexivity.
Qed.

(** ** The score (C1, C2) *)

(** C1: when the weight strings parse to the integers gw, sw and bw, the
    score of a country is gold * (gw + 1e-5) + silver * (sw + 1e-8) +
    bronze * (bw + 1e-11), divided by 1 without normalisation and by the
    population of the country with it. *)
Theorem getIndex_is_score (population : string -> option float)
    (team : MedalTableNOC) (gs ss bs : string) (gw sw bw : Z) :
  parseInt gs = of_Z gw ->
  parseInt ss = of_Z sw ->
  parseInt bs = of_Z bw ->
  getIndex population team gs ss bs false = score team gw sw bw 1 /\
  (forall p, population (c_NOCShort team) = Some p ->
     getIndex population team gs ss bs true = score team gw sw bw p).
Proof.
  intros Hg Hs Hb. unfold getIndex, score. rewrite Hg, Hs, Hb.
  split; [reflexivity |].
  intros p Hp. rewrite Hp. reflexivity.
Qed.

Lemma getIndex_is_score_witness :
  getIndex Sample.population Sample.A "3" "2" "1" false = score Sample.A 3 2 1 1 /\
  (forall p, Sample.population (c_NOCShort Sample.A) = Some p ->
     getIndex Sample.population Sample.A "3" "2" "1" true = score Sample.A 3 2 1 p).
Proof.
  apply (getIndex_is_score Sample.population Sample.A "3" "2" "1" 3 2 1);
    reflexivity.
Defined.

(** C2, as the code has it: a weight of 0 removes the weighted part of that
    medal's term and keeps its tie-break part; with gold weight 0 and no
    normalisation the score is gold * 1e-5 + silver * (sw + 1e-8) +
    bronze * (bw + 1e-11) (over 1), which still varies with the gold count,
    and likewise for silver with 1e-8 and bronze with 1e-11. *)
Theorem getIndex_weight_zero (population : string -> option float)
    (team : MedalTableNOC) (gs ss bs : string) :
  ((parseInt gs =? 0) = true ->
   getIndex population team gs ss bs false =
   (n_Gold team * 1e-5 +
    n_Silver team * (parseInt ss + 1e-8) +
    n_Bronze team * (parseInt bs + 1e-11)) / 1) /\
  ((parseInt ss =? 0) = true ->
   getIndex population team gs ss bs false =
   (n_Gold team * (parseInt gs + 1e-5) +
    n_Silver team * 1e-8 +
    n_Bronze team * (parseInt bs + 1e-11)) / 1) /\
  ((parseInt bs =? 0) = true ->
   getIndex population team gs ss bs false =
   (n_Gold team * (parseInt gs + 1e-5) +
    n_Silver team * (parseInt ss + 1e-8) +
    n_Bronze team * 1e-11) / 1).
Proof.
  unfold getIndex. repeat split; intro H;
    destruct (eqb_zero_cases _ H) as [-> | ->]; reflexivity.
Qed.

Lemma getIndex_weight_zero_witness :
  getIndex Sample.population Sample.A "0" "2" "1" false =
  (n_Gold Sample.A * 1e-5 +
   n_Silver Sample.A * (parseInt "2" + 1e-8) +
   n_Bronze Sample.A * (parseInt "1" + 1e-11)) / 1.
Proof.
  apply (proj1 (getIndex_weight_zero Sample.population Sample.A "0" "2" "1")).
  reflexivity.
Defined.

(** C2 fails as stated: with gold weight "0" and no normalisation, two
    records that differ in the gold count only (one gold against none) have
    different scores, 1e-5 and 0. *)
Lemma gold_weight_zero_score_depends_on_gold :
  getIndex Sample.population (Sample.team 1 "Aland" "AAA" 1 0 0) "0" "2" "1" false = 1e-5 /\
  getIndex Sample.population (Sample.team 1 "Aland" "AAA" 0 0 0) "0" "2" "1" false = 0 /\
  (getIndex Sample.population (Sample.team 1 "Aland" "AAA" 1 0 0) "0" "2" "1" false =?
   getIndex Sample.population (Sample.team 1 "Aland" "AAA" 0 0 0) "0" "2" "1" false) = false.
Proof.
  repeat split; vm_compute; reflexivity.
Qed.

(** ** Number formatting and labels (C9, C10) *)

(** [toFixed(0)] rounds the magnitude to the nearest integer, a half
    upwards: for the magnitude m * 2^e the integer n has
    n - 1/2 <= m * 2^e < n + 1/2. *)
Lemma round_half_up_nearest (m : positive) (e : Z) :
  ((0 <= e)%Z -> round_half_up m e = (Z.pos m * 2 ^ e)%Z) /\
  ((e < 0)%Z ->
   ((2 * round_half_up m e - 1) * 2 ^ (- e) <= 2 * Z.pos m
    < (2 * round_half_up m e + 1) * 2 ^ (- e))%Z).
Proof.
  unfold round_half_up. split; intro He.
  - apply Z.leb_le in He. rewrite He. reflexivity.
  - assert (Hn : (0 <=? e)%Z = false) by (apply Z.leb_gt; exact He).
    rewrite Hn.
    assert (E : (2 ^ (- e) = 2 * 2 ^ (- e - 1))%Z).
    { rewrite <- Z.pow_succ_r by lia. f_equal. lia. }
    assert (P : (0 < 2 ^ (- e - 1))%Z) by (apply Z.pow_pos_nonneg; lia).
    rewrite E. set (h := (2 ^ (- e - 1))%Z) in *.
    pose proof (Z.div_mod (Z.pos m + h) (2 * h) ltac:(lia)) as D.
    pose proof (Z.mod_pos_bound (Z.pos m + h) (2 * h) ltac:(lia)) as B.
    set (n := ((Z.pos m + h) / (2 * h))%Z) in *.
    nia.
Qed.

(** C9: formatBigNumber on the listed inputs, with halves rounded away from
    zero at each tier: below 1e21 [toFixed(0)] prints the sign and the
    magnitude rounded to the nearest integer, a half upwards. *)
Theorem formatBigNumber_examples :
  formatBigNumber 0 = "0"%string /\
  formatBigNumber 999 = "999"%string /\
  formatBigNumber 1000 = "1K"%string /\
  formatBigNumber 999999 = "1000K"%string /\
  formatBigNumber 1000000 = "1M"%string /\
  formatBigNumber 1000000000 = "1B"%string /\
  formatBigNumber 0.5 = "1"%string /\
  formatBigNumber 2.5 = "3"%string /\
  formatBigNumber (-2.5) = "-3"%string /\
  formatBigNumber 2500 = "3K"%string /\
  formatBigNumber 2500000 = "3M"%string /\
  formatBigNumber 2500000000 = "3B"%string /\
  (forall x s m e,
     Prim2SF x = S754_finite s m e -> (1e21 <=? abs x) = false ->
     exists n : Z,
       toFixed0 x = ((if s then "-" else "") ++ string_of_Z n)%string /\
       ((0 <= e)%Z -> n = (Z.pos m * 2 ^ e)%Z) /\
       ((e < 0)%Z ->
        ((2 * n - 1) * 2 ^ (- e) <= 2 * Z.pos m < (2 * n + 1) * 2 ^ (- e))%Z)).
Proof.
  do 12 (split; [vm_compute; reflexivity |]).
  intros x s m e Hx Hbig. exists (round_half_up m e).
  split; [| apply round_half_up_nearest].
  unfold toFixed0. rewrite Hx, Hbig. reflexivity.
Qed.

Lemma formatBigNumber_examples_witness :
  exists n : Z,
    toFixed0 2.5 = ("" ++ string_of_Z n)%string /\
    ((0 <= -51)%Z -> n = (5629499534213120 * 2 ^ (-51))%Z) /\
    ((-51 < 0)%Z ->
     ((2 * n - 1) * 2 ^ (- -51) <= 2 * 5629499534213120
      < (2 * n + 1) * 2 ^ (- -51))%Z).
Proof.
  pose proof (proj2 (proj2 (proj2 (proj2 (proj2 (proj2 (proj2 (proj2 (proj2 (proj2 (proj2 (proj2 formatBigNumber_examples)))))))))))) as H.
  apply (H 2.5 false 5629499534213120%positive (-51)%Z);
    vm_compute; reflexivity.
Defined.

Lemma digit_value_not_decimal (c : ascii) :
  is_decimal_digit c = false ->
  match digit_value c with
  | Some d => (d <? 10)%Z = false
  | None => True
  end.
Proof.
  unfold is_decimal_digit, digit_value. cbv zeta.
  intros ->.
  destruct ((97 <=? Z.of_N (N_of_ascii c))%Z && (Z.of_N (N_of_ascii c) <=? 122)%Z) eqn:E1.
  - apply andb_prop in E1. destruct E1 as [E1 _].
    apply Z.leb_le in E1. apply Z.ltb_ge. lia.
  - destruct ((65 <=? Z.of_N (N_of_ascii c))%Z && (Z.of_N (N_of_ascii c) <=? 90)%Z) eqn:E2;
      [| exact I].
    apply andb_prop in E2. destruct E2 as [E2 _].
    apply Z.leb_le in E2. apply Z.ltb_ge. lia.
Qed.

Lemma parseInt_no_integer (s : string) :
  starts_with_integer s = false -> parseInt s = nan.
Proof.
  unfold starts_with_integer, parseInt.
  destruct (strip_sign (trimStart s)) as [neg S1]. cbn [snd].
  destruct S1 as [| c r]; [reflexivity |].
  intro H.
  assert (Hp : strip_prefix (String c r) = (10%Z, String c r)).
  { unfold strip_prefix.
    destruct c as [[] [] [] [] [] [] [] []]; try reflexivity; discriminate H. }
  rewrite Hp. cbn [radix_digits].
  pose proof (digit_value_not_decimal c H) as Hd.
  destruct (digit_value c) as [d |]; [rewrite Hd |]; reflexivity.
Qed.

(** C10: a weight string that does not start with a parsable integer is
    labelled "NaN points". *)
Theorem getWeightText_unparsable (weight : string) :
  starts_with_integer weight = false ->
  getWeightText weight = "NaN points"%string.
Proof.
  intro H. unfold getWeightText. rewrite (parseInt_no_integer _ H).
  vm_compute. reflexivity.
Qed.

Lemma getWeightText_unparsable_witness :
  getWeightText "" = "NaN points"%string /\ getWeightText "abc" = "NaN points"%string.
Proof.
  split.
  - apply (getWeightText_unparsable ""). reflexivity.
  - apply (getWeightText_unparsable "abc"). reflexivity.
Defined.

(** ** The configuration codec (C7) *)

Section SearchParams.

Variables (k k' v : string) (ps : URLSearchParams).

Lemma get_delete_same : searchParams_get k (searchParams_delete k ps) = None.
Proof.
  induction ps as [| [a b] rest IH]; cbn; [reflexivity |].
  destruct (String.eqb a k) eqn:E; cbn; [exact IH |].
  rewrite E. exact IH.
Qed.

Lemma get_delete_other :
  k <> k' -> searchParams_get k (searchParams_delete k' ps) = searchParams_get k ps.
Proof.
  intro Hne. induction ps as [| [a b] rest IH]; cbn; [reflexivity |].
  destruct (String.eqb a k') eqn:E; cbn.
  - apply String.eqb_eq in E. subst a.
    destruct (String.eqb k' k) eqn:E'; [| exact IH].
    apply String.eqb_eq in E'. congruence.
  - destruct (String.eqb a k); [reflexivity | exact IH].
Qed.

Lemma get_set_same : searchParams_get k (searchParams_set k v ps) = Some v.
Proof.
  induction ps as [| [a b] rest IH]; cbn.
  - rewrite String.eqb_refl. reflexivity.
  - destruct (String.eqb a k) eqn:E; cbn.
    + rewrite String.eqb_refl. reflexivity.
    + rewrite E. exact IH.
Qed.

Lemma has_delete_same : searchParams_has k (searchParams_delete k ps) = false.
Proof.
  induction ps as [| [a b] rest IH]; cbn; [reflexivity |].
  destruct (String.eqb a k) eqn:E; cbn; [exact IH |].
  rewrite E. exact IH.
Qed.

Lemma has_set_same : searchParams_has k (searchParams_set k v ps) = true.
Proof.
  induction ps as [| [a b] rest IH]; cbn.
  - rewrite String.eqb_refl. reflexivity.
  - destruct (String.eqb a k) eqn:E; cbn.
    + rewrite String.eqb_refl. reflexivity.
    + rewrite E. exact IH.
Qed.

End SearchParams.

Lemma get_set_other (k k' v : string) (ps : URLSearchParams) :
  k <> k' -> searchParams_get k (searchParams_set k' v ps) = searchParams_get k ps.
Proof.
  intro Hne. induction ps as [| [a b] rest IH]; cbn.
  - destruct (String.eqb k' k) eqn:E; [| reflexivity].
    apply String.eqb_eq in E. congruence.
  - destruct (String.eqb a k') eqn:E; cbn.
    + apply String.eqb_eq in E. subst a.
      destruct (String.eqb k' k) eqn:E'.
      * apply String.eqb_eq in E'. congruence.
      * apply get_delete_other. exact Hne.
    + destruct (String.eqb a k); [reflexivity | exact IH].
Qed.

Lemma get_writes (k name : string) (ps ps' : URLSearchParams) :
  k <> name -> writes name ps ps' -> searchParams_get k ps' = searchParams_get k ps.
Proof.
  intros Hne [-> | [v ->]].
  - apply get_delete_other. exact Hne.
  - apply get_set_other. exact Hne.
Qed.

Lemma write_weight (name value default : string) (ps : URLSearchParams) :
  let ps' := if String.eqb value default
             then searchParams_delete name ps
             else searchParams_set name value ps in
  writes name ps ps' /\ nullish (searchParams_get name ps') default = value.
Proof.
  cbv zeta. destruct (String.eqb value default) eqn:E.
  - split; [left; reflexivity |].
    rewrite get_delete_same. apply String.eqb_eq in E. symmetry. exact E.
  - split; [right; exists value; reflexivity |].
    rewrite get_set_same. reflexivity.
Qed.

(** Reading the signals back from the query the visible task wrote gives
    the signals, whatever the query was before. *)
Lemma initSignals_syncSearchParams (sig : Signals) (ps : URLSearchParams) :
  initSignals (syncSearchParams sig ps) = sig.
Proof.
  destruct sig as [g s b d]. unfold syncSearchParams, initSignals.
  cbn [goldWeight silverWeight bronzeWeight divideByPopulation].
  destruct (write_weight "gold" g defaultGoldWeight ps) as [W1 G1].
  set (ps1 := if String.eqb g defaultGoldWeight then _ else _) in *.
  destruct (write_weight "silver" s defaultSilverWeight ps1) as [W2 G2].
  set (ps2 := if String.eqb s defaultSilverWeight then _ else _) in *.
  destruct (write_weight "bronze" b defaultBronzeWeight ps2) as [W3 G3].
  set (ps3 := if String.eqb b defaultBronzeWeight then _ else _) in *.
  set (ps4 := if d then _ else _).
  assert (W4 : writes "population" ps3 ps4).
  { subst ps4. destruct d; [right; eexists; reflexivity | left; reflexivity]. }
  assert (Hd : searchParams_has "population" ps4 = d).
  { subst ps4. destruct d; [apply has_set_same | apply has_delete_same]. }
  f_equal.
  - rewrite (get_writes "gold" "population" _ _ ltac:(discriminate) W4).
    rewrite (get_writes "gold" "bronze" _ _ ltac:(discriminate) W3).
    rewrite (get_writes "gold" "silver" _ _ ltac:(discriminate) W2).
    exact G1.
  - rewrite (get_writes "silver" "population" _ _ ltac:(discriminate) W4).
    rewrite (get_writes "silver" "bronze" _ _ ltac:(discriminate) W3).
    exact G2.
  - rewrite (get_writes "bronze" "population" _ _ ltac:(discriminate) W4).
    exact G3.
  - exact Hd.
Qed.

Lemma parseInt_string_of_Z (w : Z) :
  (0 <= w <= 10)%Z -> parseInt (string_of_Z w) = of_Z w.
Proof.
  intro H.
  assert (C : (w = 0 \/ w = 1 \/ w = 2 \/ w = 3 \/ w = 4 \/ w = 5 \/ w = 6 \/
               w = 7 \/ w = 8 \/ w = 9 \/ w = 10)%Z) by lia.
  repeat (destruct C as [-> | C]; [reflexivity |]).
  subst w. reflexivity.
Qed.

(** C7: for a configuration with integer weights from 0 to 10, the signals
    read back from the query written for it are its own: the weight texts
    parse to its weights and the flag is the presence of "population". *)
Theorem config_round_trip (c : RankingConfig) (ps : URLSearchParams) :
  (0 <= cfg_gold c <= 10)%Z ->
  (0 <= cfg_silver c <= 10)%Z ->
  (0 <= cfg_bronze c <= 10)%Z ->
  let query := syncSearchParams (signals_of c) ps in
  initSignals query = signals_of c /\
  parseInt (goldWeight (initSignals query)) = of_Z (cfg_gold c) /\
  parseInt (silverWeight (initSignals query)) = of_Z (cfg_silver c) /\
  parseInt (bronzeWeight (initSignals query)) = of_Z (cfg_bronze c) /\
  searchParams_has "population" query = normalizeByPopulation c.
Proof.
  intros Hg Hs Hb query. subst query.
  rewrite initSignals_syncSearchParams.
  repeat split; cbn [signals_of goldWeight silverWeight bronzeWeight];
    try (apply parseInt_string_of_Z; assumption).
  change (searchParams_has "population" (syncSearchParams (signals_of c) ps))
    with (divideByPopulation (initSignals (syncSearchParams (signals_of c) ps))).
  rewrite initSignals_syncSearchParams. reflexivity.
Qed.

Lemma config_round_trip_witness :
  let c := {| cfg_gold := 5; cfg_silver := 2; cfg_bronze := 1;
              normalizeByPopulation := true |} in
  let query := syncSearchParams (signals_of c) [("gold", "9"); ("tab", "all")] in
  initSignals query = signals_of c /\
  parseInt (goldWeight (initSignals query)) = of_Z 5 /\
  parseInt (silverWeight (initSignals query)) = of_Z 2 /\
  parseInt (bronzeWeight (initSignals query)) = of_Z 1 /\
  searchParams_has "population" query = true.
Proof.
  apply (config_round_trip
           {| cfg_gold := 5; cfg_silver := 2; cfg_bronze := 1;
              normalizeByPopulation := true |}
           [("gold", "9"); ("tab", "all")]); cbn; lia.
Defined.

(** ** Sorting in place (C3, and the permutation half of C6) *)

Section SortPermutation.

Context {A : Type}.
Variable comparefn : A -> A -> float.

Lemma sort_insert_Permutation (x : A) (l : list A) :
  Permutation (x :: l) (sort_insert comparefn x l).
Proof.
  induction l as [| y rest IH]; cbn.
  - apply Permutation_refl.
  - destruct (0 <? comparefn x y).
    + eapply perm_trans; [apply perm_swap |].
      apply perm_skip. exact IH.
    + apply Permutation_refl.
Qed.

Lemma Array_sort_Permutation (l : list A) :
  Permutation l (Array_sort comparefn l).
Proof.
  induction l as [| x rest IH]; cbn.
  - apply perm_nil.
  - eapply perm_trans; [apply perm_skip; exact IH |].
    apply sort_insert_Permutation.
Qed.

End SortPermutation.

Lemma rows_from_teams (population : string -> option float) (sig : Signals)
    (i : nat) (teams : list MedalTableNOC) :
  map row_team (rows_from population sig i teams) = teams.
Proof.
  revert i. induction teams as [| t rest IH]; intro i; cbn; [reflexivity |].
  rewrite IH. reflexivity.
Qed.

(** C3, as the code has it: a rendering leaves the signals as they were and
    leaves in the array the records it held, each as it was, in the ranked
    order: the array is a permutation of what it was, and it is the
    sequence of teams of the rows. *)
Theorem render_frame (population : string -> option float) (st : Store) :
  signals (snd (render population st)) = signals st /\
  Permutation (MedalTableNOC_array st) (MedalTableNOC_array (snd (render population st))) /\
  MedalTableNOC_array (snd (render population st)) =
    map row_team (fst (render population st)).
Proof.
  unfold render. cbn [fst snd signals MedalTableNOC_array].
  repeat split.
  - apply Array_sort_Permutation.
  - symmetry. apply rows_from_teams.
Qed.

(** C3 fails as stated: rendering the array [A; B] with the default weights
    leaves the array as [B; A]. *)
Lemma render_reorders_array :
  let st := {| MedalTableNOC_array := [Sample.A; Sample.B];
               signals := Sample.defaults |} in
  MedalTableNOC_array (snd (render Sample.population st)) = [Sample.B; Sample.A] /\
  MedalTableNOC_array (snd (render Sample.population st)) <> MedalTableNOC_array st.
Proof.
  cbv zeta.
  assert (E : MedalTableNOC_array
                (snd (render Sample.population
                        {| MedalTableNOC_array := [Sample.A; Sample.B];
                           signals := Sample.defaults |})) = [Sample.B; Sample.A])
    by (vm_compute; reflexivity).
  split; [exact E |].
  rewrite E. cbn [MedalTableNOC_array]. intro H.
  apply (f_equal (map c_NOCShort)) in H. discriminate H.
Qed.

(** ** Feed validation (C8) *)

Lemma parse_strip_nullable (t : ZodType) (at_ : path) (d : option json) :
  d <> Some JNull -> parse t at_ d = parse (strip_nullable t) at_ d.
Proof.
  intro Hd. induction t as [| | inner IH | element IH | shape]; try reflexivity.
  cbn [strip_nullable]. rewrite <- IH. cbn [parse].
  destruct d as [[] |]; try reflexivity. congruence.
Qed.

(** A value of the wrong kind is refused where it stands. *)
Lemma parse_wrong_kind (t : ZodType) (at_ : path) (d : option json) :
  kind_ok t d = false -> parse t at_ d = INVALID [at_].
Proof.
  induction t as [| | inner IH | element IH | shape]; cbn [kind_ok parse]; intro H.
  - destruct d as [[] |]; try reflexivity. discriminate H.
  - destruct d as [[] |]; try reflexivity.
    apply negb_false_iff in H. rewrite H. reflexivity.
  - destruct d as [[] |]; try (apply IH; exact H). discriminate H.
  - destruct d as [[] |]; try reflexivity. discriminate H.
  - destruct d as [[] |]; try reflexivity. discriminate H.
Qed.

Section NestedIssues.

Variable parse_at : ZodType -> path -> option json -> ParseReturn.
Variable at_ : path.

(** An issue below a key of the shape is an issue of the object. *)
Lemma parse_shape_issue (props : list (string * json))
    (shape : list (string * ZodType)) (k : string) (tk : ZodType)
    (issues : list path) (q : path) :
  shape_get k shape = Some tk ->
  parse_at tk (at_ ++ [Key k])%list (get_prop k props) = INVALID issues ->
  In q issues ->
  In q (snd (parse_shape parse_at at_ props shape)).
Proof.
  intros Hget Hp Hq. induction shape as [| [k0 t0] rest IH]; [discriminate Hget |].
  cbn [shape_get] in Hget. cbn [parse_shape].
  destruct (parse_shape parse_at at_ props rest) as [vs is_] eqn:E.
  destruct (String.eqb k k0) eqn:Ek.
  - apply String.eqb_eq in Ek. subst k0. injection Hget as ->.
    rewrite Hp. cbn [snd]. apply in_or_app. left. exact Hq.
  - specialize (IH Hget). cbn [snd] in IH.
    destruct (parse_at t0 (at_ ++ [Key k0])%list (get_prop k0 props)); cbn [snd].
    + exact IH.
    + apply in_or_app. right. exact IH.
Qed.

(** An issue below an item of the array is an issue of the array. *)
Lemma parse_items_issue (element : ZodType) (items : list json) (i0 i : nat)
    (x : json) (issues : list path) (q : path) :
  nth_error items i = Some x ->
  parse_at element (at_ ++ [Index (i0 + i)])%list (Some x) = INVALID issues ->
  In q issues ->
  In q (snd (parse_items parse_at at_ element i0 items)).
Proof.
  revert i0 i. induction items as [| y rest IH]; intros i0 i Hn Hp Hq.
  - destruct i; discriminate Hn.
  - cbn [parse_items].
    destruct (parse_items parse_at at_ element (S i0) rest) as [vs is_] eqn:E.
    destruct i as [| i'].
    + cbn in Hn. injection Hn as ->. rewrite Nat.add_0_r in Hp.
      rewrite Hp. cbn [snd]. apply in_or_app. left. exact Hq.
    + cbn in Hn. rewrite <- Nat.add_succ_comm in Hp.
      specialize (IH (S i0) i' Hn Hp Hq). rewrite E in IH. cbn [snd] in IH.
      destruct (parse_at element (at_ ++ [Index i0])%list (Some y)); cbn [snd].
      * exact IH.
      * apply in_or_app. right. exact IH.
Qed.

End NestedIssues.

(** Any deviation makes the parse fail, with an issue at its path. *)
Lemma parse_deviation (p : path) :
  forall (t : ZodType) (d : option json) (at_ : path),
    deviates_at t d p ->
    exists issues, parse t at_ d = INVALID issues /\ In (at_ ++ p)%list issues.
Proof.
  induction p as [| seg p' IH]; intros t d at_ (tp & dp & Hloc & Hkind).
  - cbn in Hloc. injection Hloc as <- <-.
    exists [at_]. split; [apply parse_wrong_kind; exact Hkind |].
    rewrite app_nil_r. left. reflexivity.
  - cbn [locate] in Hloc.
    destruct (strip_nullable t) as [| | inner | element | shape] eqn:Et;
      try discriminate Hloc.
    + (* array *)
      destruct seg as [k | i]; [discriminate Hloc |].
      destruct d as [[| | | | items |] |]; try discriminate Hloc.
      destruct (nth_error items i) as [x |] eqn:Ex; [| discriminate Hloc].
      destruct (IH element (Some x) (at_ ++ [Index i])%list) as (is1 & Hp & Hin).
      { exists tp, dp. split; assumption. }
      rewrite <- app_assoc in Hin. cbn [app] in Hin.
      rewrite parse_strip_nullable by discriminate. rewrite Et. cbn [parse].
      pose proof (parse_items_issue (fun t' => parse t') at_ element items 0 i x
                    is1 _ Ex Hp Hin) as Hall.
      destruct (parse_items (fun t' => parse t') at_ element 0 items) as [vs is_].
      cbn [snd] in Hall.
      destruct is_ as [| q0 is_]; [destruct Hall |].
      eexists. split; [reflexivity | exact Hall].
    + (* object *)
      destruct seg as [k | i]; [| destruct d as [[] |]; discriminate Hloc].
      destruct d as [[| | | | | props] |]; try discriminate Hloc.
      destruct (shape_get k shape) as [tk |] eqn:Ek; [| discriminate Hloc].
      destruct (IH tk (get_prop k props) (at_ ++ [Key k])%list) as (is1 & Hp & Hin).
      { exists tp, dp. split; assumption. }
      rewrite <- app_assoc in Hin. cbn [app] in Hin.
      rewrite parse_strip_nullable by discriminate. rewrite Et. cbn [parse].
      pose proof (parse_shape_issue (fun t' => parse t') at_ props shape k tk
                    is1 _ Ek Hp Hin) as Hall.
      destruct (parse_shape (fun t' => parse t') at_ props shape) as [vs is_].
      cbn [snd] in Hall.
      destruct is_ as [| q0 is_]; [destruct Hall |].
      eexists. split; [reflexivity | exact Hall].
Qed.

(** C8: the validation of a payload fails, with no value, as soon as the
    payload deviates from the schema at one place, and so when a field
    declared a number holds a string; the issue names the place. *)
Theorem useMedals_strict (raw : json) :
  (forall p, deviates_at medalTableSchema (Some raw) p ->
     exists issues, useMedals raw = INVALID issues /\ In p issues) /\
  (forall p s, locate medalTableSchema (Some raw) p = Some (number_, Some (JString s)) ->
     exists issues, useMedals raw = INVALID issues /\ In p issues).
Proof.
  assert (D : forall p, deviates_at medalTableSchema (Some raw) p ->
                exists issues, useMedals raw = INVALID issues /\ In p issues).
  { intros p Hd. exact (parse_deviation p medalTableSchema (Some raw) [] Hd). }
  split; [exact D |].
  intros p s Hloc. apply D.
  exists number_, (Some (JString s)). split; [exact Hloc | reflexivity].
Qed.

Lemma useMedals_strict_witness :
  exists issues,
    useMedals Sample.stringFeed = INVALID issues /\
    In [Key "MedalTableNOC"; Index 1; Key "n_Silver"] issues.
Proof.
  apply (proj2 (useMedals_strict Sample.stringFeed)
           [Key "MedalTableNOC"; Index 1; Key "n_Silver"] "3").
  reflexivity.
Defined.

(** ** Missing population and zero totals (C4, C5) *)

Lemma div_nan_l (x : float) : nan / x = nan.
Proof.
  apply Prim2SF_nan_eq. rewrite div_spec.
  change (Prim2SF nan) with S754_nan. reflexivity.
Qed.

(** A quotient by a zero is an infinity or NaN. *)
Lemma div_zero_cases (p z : float) :
  (z =? 0) = true -> p / z = infinity \/ p / z = neg_infinity \/ p / z = nan.
Proof.
  intro Hz.
  assert (Hq : exists s, Prim2SF (p / z) = S754_infinity s \/ Prim2SF (p / z) = S754_nan).
  { rewrite div_spec.
    destruct (eqb_zero_cases z Hz) as [-> | ->];
      [change (Prim2SF zero) with (S754_zero false)
      | change (Prim2SF neg_zero) with (S754_zero true)];
      destruct (Prim2SF p) as [s | s | | s m e]; cbn;
      first [ eexists; left; reflexivity | exists false; right; reflexivity ]. }
  destruct Hq as [s [Hq | Hq]].
  - destruct s; [right; left | left]; apply Prim2SF_inj; rewrite Hq; reflexivity.
  - right; right. apply Prim2SF_nan_eq. exact Hq.
Qed.

(** A positive value over +0 is +Infinity. *)
Lemma div_pos_zero (p : float) : (0 <? p) = true -> p / 0 = infinity.
Proof.
  rewrite ltb_spec. change (Prim2SF 0) with (S754_zero false). intro Hp.
  apply Prim2SF_inj. rewrite div_spec.
  change (Prim2SF 0) with (S754_zero false).
  change (Prim2SF infinity) with (S754_infinity false).
  destruct (Prim2SF p) as [s | s | | s m e]; try destruct s; try discriminate Hp;
    reflexivity.
Qed.

(** C4, as the code has it: with normalisation on and no population entry
    for the short code, the divisor is undefined and the division gives NaN
    (the divisor is not taken as 1): the score is NaN and the ratio cell
    reads "NaNB". *)
Theorem missing_population_is_NaN (population : string -> option float)
    (sig : Signals) (team : MedalTableNOC) :
  population (c_NOCShort team) = None ->
  divideByPopulation sig = true ->
  getIndex population team (goldWeight sig) (silverWeight sig) (bronzeWeight sig)
    (divideByPopulation sig) = nan /\
  pointsCell population sig team = "NaNB"%string.
Proof.
  intros Hpop Hdiv. unfold getIndex, pointsCell. rewrite Hdiv, Hpop.
  cbn [toNumber]. rewrite div_nan_r, div_nan_l.
  split; reflexivity.
Qed.

Lemma missing_population_is_NaN_witness :
  getIndex Sample.population Sample.B "3" "2" "1" true = nan /\
  pointsCell Sample.population Sample.perCapita Sample.B = "NaNB"%string.
Proof.
  apply (missing_population_is_NaN Sample.population Sample.perCapita Sample.B);
    reflexivity.
Defined.

(** C4 fails as stated: for B, whose short code has no population entry,
    the score with normalisation is a number, NaN, and the ratio cell is the
    text "NaNB"; nothing marks the result as unavailable. *)
Lemma missing_population_score_is_a_NaN_number :
  is_nan (getIndex Sample.population Sample.B "3" "2" "1" true) = true /\
  map row_points
    (fst (render Sample.population
            {| MedalTableNOC_array := [Sample.B]; signals := Sample.perCapita |}))
  = ["NaNB"%string].
Proof.
  split; vm_compute; reflexivity.
Qed.

(** C5, as the code has it: for a weighted total of 0 the ratio is the
    quotient by zero, an infinity or NaN, and the cell shows it as
    "InfinityB", "-Infinity" or "NaNB"; it is "InfinityB" for a positive
    population over the total +0, and "NaNB" for a missing population. *)
Theorem zero_total_ratio (population : string -> option float)
    (sig : Signals) (team : MedalTableNOC) :
  divideByPopulation sig = true ->
  (weightedTotal sig team =? 0) = true ->
  In (pointsCell population sig team)
     ["InfinityB"%string; "-Infinity"%string; "NaNB"%string] /\
  (forall p, population (c_NOCShort team) = Some p -> (0 <? p) = true ->
     weightedTotal sig team = 0 ->
     pointsCell population sig team = "InfinityB"%string) /\
  (population (c_NOCShort team) = None ->
     pointsCell population sig team = "NaNB"%string).
Proof.
  intros Hdiv Hz. unfold pointsCell. rewrite Hdiv. repeat split.
  - destruct (div_zero_cases (toNumber (population (c_NOCShort team))) _ Hz)
      as [-> | [-> | ->]]; cbn; auto.
  - intros p Hp Hpos H0. rewrite Hp, H0. cbn [toNumber].
    rewrite (div_pos_zero p Hpos). reflexivity.
  - intros ->. cbn [toNumber]. rewrite div_nan_l. reflexivity.
Qed.

Lemma zero_total_ratio_witness :
  In (pointsCell Sample.population Sample.perCapita Sample.Z0)
     ["InfinityB"%string; "-Infinity"%string; "NaNB"%string] /\
  (forall p, Sample.population (c_NOCShort Sample.Z0) = Some p -> (0 <? p) = true ->
     weightedTotal Sample.perCapita Sample.Z0 = 0 ->
     pointsCell Sample.population Sample.perCapita Sample.Z0 = "InfinityB"%string) /\
  (Sample.population (c_NOCShort Sample.Z0) = None ->
     pointsCell Sample.population Sample.perCapita Sample.Z0 = "NaNB"%string).
Proof.
  apply (zero_total_ratio Sample.population Sample.perCapita Sample.Z0);
    reflexivity.
Defined.

(** C5 fails as stated: the country with no medals has the weighted total
    0, and with population 1000 its ratio cell is the text "InfinityB". *)
Lemma zero_total_ratio_is_Infinity :
  weightedTotal Sample.perCapita Sample.Z0 = 0 /\
  Sample.population (c_NOCShort Sample.Z0) = Some 1000 /\
  formatBigNumber (1000 / weightedTotal Sample.perCapita Sample.Z0) = "InfinityB"%string /\
  pointsCell Sample.population Sample.perCapita Sample.Z0 = "InfinityB"%string.
Proof.
  repeat split; vm_compute; reflexivity.
Qed.

(** ** The order of binary64 values and the sign of a difference *)

Module Binary64.

Local Open Scope Z_scope.

(** The number of bits of a mantissa. *)
Lemma digits2_pos_bounds (m : positive) :
  2 ^ (Z.pos (digits2_pos m) - 1) <= Z.pos m < 2 ^ Z.pos (digits2_pos m).
Proof.
  induction m as [m IH | m IH |]; cbn [digits2_pos].
  - rewrite Pos2Z.inj_succ.
    replace (Z.succ (Z.pos (digits2_pos m)) - 1) with (Z.succ (Z.pos (digits2_pos m) - 1)) by lia.
    rewrite !Z.pow_succ_r by lia. lia.
  - rewrite Pos2Z.inj_succ.
    replace (Z.succ (Z.pos (digits2_pos m)) - 1) with (Z.succ (Z.pos (digits2_pos m) - 1)) by lia.
    rewrite !Z.pow_succ_r by lia. lia.
  - cbn. lia.
Qed.

(** The mantissa of a valid binary64 value has at most 53 bits, and exactly
    53 unless the exponent is the least one. *)
Lemma bounded_inv (m : positive) (e : Z) :
  bounded prec emax m e = true ->
  -1074 <= e <= 971 /\ Z.pos m < 2 ^ 53 /\ (e = -1074 \/ 2 ^ 52 <= Z.pos m).
Proof.
  unfold bounded, canonical_mantissa, fexp, SpecFloat.emin, prec, emax.
  intro H. apply andb_prop in H. destruct H as [H1 H2].
  apply Z.eqb_eq in H1. apply Z.leb_le in H2.
  pose proof (digits2_pos_bounds m) as [Hlo Hhi].
  set (d := Z.pos (digits2_pos m)) in *.
  assert (Hd : d <= 53) by lia.
  split; [lia |]. split.
  - eapply Z.lt_le_trans; [exact Hhi |]. apply Z.pow_le_mono_r; lia.
  - destruct (Z.eq_dec e (-1074)) as [-> | Hne]; [left; reflexivity | right].
    assert (d = 53) as Hd53 by lia. rewrite Hd53 in Hlo. exact Hlo.
Qed.

(** The key of a finite value lies strictly between 0 and the key of +Infinity. *)
Lemma finite_key_bounds (m : positive) (e : Z) :
  bounded prec emax m e = true ->
  0 < Z.pos m * 2 ^ (e + 1074) < key_infinity.
Proof.
  unfold key_infinity.
  intro H. destruct (bounded_inv m e H) as (He & Hm & _).
  assert (0 < 2 ^ (e + 1074)) by (apply Z.pow_pos_nonneg; lia).
  split; [apply Z.mul_pos_pos; lia |].
  replace 2098 with (53 + 2045) by lia. rewrite (Z.pow_add_r 2 53 2045) by lia.
  assert (2 ^ (e + 1074) <= 2 ^ 2045). { apply Z.pow_le_mono_r; lia. }
  assert (0 < 2 ^ 53) by (apply Z.pow_pos_nonneg; lia).
  nia.
Qed.

(** For valid values a smaller exponent is a smaller magnitude. *)
Lemma finite_key_lt (m1 m2 : positive) (e1 e2 : Z) :
  bounded prec emax m1 e1 = true ->
  bounded prec emax m2 e2 = true ->
  e1 < e2 ->
  Z.pos m1 * 2 ^ (e1 + 1074) < Z.pos m2 * 2 ^ (e2 + 1074).
Proof.
  intros H1 H2 Hlt.
  destruct (bounded_inv m1 e1 H1) as (He1 & Hm1 & _).
  destruct (bounded_inv m2 e2 H2) as (He2 & _ & [He | Hm2]); [lia |].
  assert (P : 0 < 2 ^ (e1 + 1074)) by (apply Z.pow_pos_nonneg; lia).
  assert (L : 2 * 2 ^ (e1 + 1074) <= 2 ^ (e2 + 1074)).
  { rewrite <- Z.pow_succ_r by lia. apply Z.pow_le_mono_r; lia. }
  change (2 ^ 53) with (2 * 2 ^ 52) in Hm1.
  assert (0 < 2 ^ 52) by (apply Z.pow_pos_nonneg; lia).
  nia.
Qed.

Lemma finite_compare_key (m1 m2 : positive) (e1 e2 : Z) :
  bounded prec emax m1 e1 = true ->
  bounded prec emax m2 e2 = true ->
  match e1 ?= e2 with
  | Lt => Lt
  | Gt => Gt
  | Eq => Pos.compare_cont Eq m1 m2
  end = (Z.pos m1 * 2 ^ (e1 + 1074) ?= Z.pos m2 * 2 ^ (e2 + 1074)).
Proof.
  intros H1 H2. destruct (e1 ?= e2) eqn:E.
  - apply Z.compare_eq in E. subst e2.
    destruct (bounded_inv m1 e1 H1) as (He1 & _).
    assert (P : 0 < 2 ^ (e1 + 1074)) by (apply Z.pow_pos_nonneg; lia).
    change (Pos.compare_cont Eq m1 m2) with (Z.pos m1 ?= Z.pos m2).
    destruct (Z.compare_spec (Z.pos m1) (Z.pos m2)) as [Hc | Hc | Hc]; symmetry.
    + apply Z.compare_eq_iff. rewrite Hc. reflexivity.
    + apply Z.compare_lt_iff. nia.
    + apply Z.compare_gt_iff. nia.
  - symmetry. apply Z.compare_lt_iff.
    apply finite_key_lt; assumption.
  - symmetry. apply Z.compare_gt_iff.
    apply finite_key_lt; try assumption. apply Z.compare_gt_iff in E. exact E.
Qed.

(** The comparison of two values other than NaN is that of their keys. *)
Lemma SFcompare_key (x y : spec_float) :
  valid_binary x = true -> valid_binary y = true ->
  x <> S754_nan -> y <> S754_nan ->
  SFcompare x y = Some (SFkey x ?= SFkey y).
Proof.
  intros Vx Vy Nx Ny.
  assert (I : 0 < key_infinity) by (apply Z.pow_pos_nonneg; lia).
  destruct x as [sx | sx | | sx mx ex]; [| | congruence |];
    destruct y as [sy | sy | | sy my ey]; try congruence;
    cbn [valid_binary] in Vx, Vy;
    try pose proof (finite_key_bounds mx ex Vx) as Bx;
    try pose proof (finite_key_bounds my ey Vy) as By;
    cbn [SFcompare SFkey];
    try (destruct sx); try (destruct sy); cbn [cond_Zopp];
    try reflexivity;
    try (f_equal; symmetry; first [ apply Z.compare_lt_iff; lia | apply Z.compare_gt_iff; lia | apply Z.compare_eq_iff; lia ]).
  - f_equal. rewrite Z.compare_opp.
    rewrite (Z.compare_antisym (Z.pos mx * 2 ^ (ex + 1074))).
    rewrite <- (finite_compare_key mx my ex ey Vx Vy).
    destruct (ex ?= ey); reflexivity.
  - f_equal. apply finite_compare_key; assumption.
Qed.

(** Rounding keeps the sign: shifting a positive mantissa to its place never
    reaches zero. *)
Lemma shr_1_m (mrs : shr_record) :
  0 <= shr_m mrs -> shr_m (shr_1 mrs) = shr_m mrs / 2.
Proof.
  destruct mrs as [m r s]. cbn [shr_m]. intro H.
  destruct m as [| p | p]; [reflexivity | | lia].
  destruct p as [p | p |]; cbn [shr_1 shr_m].
  - rewrite Pos2Z.inj_xI. apply Z.div_unique with (r := 1); lia.
  - rewrite Pos2Z.inj_xO. apply Z.div_unique with (r := 0); lia.
  - reflexivity.
Qed.

Lemma iter_shr_1_m (p : positive) :
  forall mrs, 0 <= shr_m mrs ->
    shr_m (iter_pos shr_1 p mrs) = shr_m mrs / 2 ^ Z.pos p.
Proof.
  induction p as [p IH | p IH |]; intros mrs H; cbn [iter_pos].
  - assert (H1 : 0 <= shr_m (shr_1 mrs))
      by (rewrite shr_1_m by exact H; apply Z.div_pos; lia).
    assert (P : 0 < 2 ^ Z.pos p) by (apply Z.pow_pos_nonneg; lia).
    assert (H2 : 0 <= shr_m (iter_pos shr_1 p (shr_1 mrs)))
      by (rewrite IH by exact H1; apply Z.div_pos; lia).
    rewrite IH by exact H2. rewrite IH by exact H1. rewrite shr_1_m by exact H.
    rewrite !Z.div_div by lia. f_equal.
    rewrite <- Z.pow_add_r, <- Z.pow_succ_r by lia. f_equal. lia.
  - assert (P : 0 < 2 ^ Z.pos p) by (apply Z.pow_pos_nonneg; lia).
    assert (H2 : 0 <= shr_m (iter_pos shr_1 p mrs))
      by (rewrite IH by exact H; apply Z.div_pos; lia).
    rewrite IH by exact H2. rewrite IH by exact H.
    rewrite Z.div_div by lia. f_equal.
    rewrite <- Z.pow_add_r by lia. f_equal. lia.
  - apply shr_1_m. exact H.
Qed.

Lemma shr_record_of_loc_m (m : Z) (l : location) :
  shr_m (shr_record_of_loc m l) = m.
Proof.
  destruct l as [| []]; reflexivity.
Qed.

Lemma shr_fexp_pos (m e : Z) (l : location) :
  0 < m -> -1074 <= e ->
  0 < shr_m (fst (shr_fexp prec emax m e l)) /\
  -1074 <= snd (shr_fexp prec emax m e l).
Proof.
  intros Hm He. unfold shr_fexp, shr.
  destruct m as [| p | p]; try lia. cbn [Zdigits2].
  pose proof (digits2_pos_bounds p) as [Hlo _].
  set (d := Z.pos (digits2_pos p)) in *.
  unfold fexp, SpecFloat.emin, prec, emax.
  destruct (Z.max (d + e - 53) (3 - 1024 - 53) - e) as [| n | n] eqn:En;
    cbn [fst snd]; rewrite ?shr_record_of_loc_m; try (split; lia).
  rewrite iter_shr_1_m by (rewrite shr_record_of_loc_m; lia).
  rewrite shr_record_of_loc_m.
  split; [| lia].
  apply Z.div_str_pos. split; [apply Z.pow_pos_nonneg; lia |].
  eapply Z.le_trans; [| exact Hlo].
  apply Z.pow_le_mono_r; lia.
Qed.

Lemma round_nearest_even_pos (m : Z) (l : location) :
  0 < m -> 0 < round_nearest_even m l.
Proof.
  intro H. destruct l as [| []]; cbn [round_nearest_even];
    try destruct (Z.even m); lia.
Qed.

Lemma binary_round_aux_sign (s : bool) (m e : Z) (l : location) :
  0 < m -> -1074 <= e ->
  SFcompare (S754_zero false) (binary_round_aux prec emax s m e l) =
  Some (if s then Gt else Lt).
Proof.
  intros Hm He. unfold binary_round_aux.
  pose proof (shr_fexp_pos m e l Hm He) as [H1 H2].
  destruct (shr_fexp prec emax m e l) as [mrs' e']. cbn [fst snd] in H1, H2.
  pose proof (shr_fexp_pos _ e' loc_Exact
                (round_nearest_even_pos _ (loc_of_shr_record mrs') H1) H2) as [H3 _].
  destruct (shr_fexp prec emax (round_nearest_even (shr_m mrs') (loc_of_shr_record mrs'))
              e' loc_Exact) as [mrs'' e''].
  cbn [fst] in H3.
  destruct (shr_m mrs'') as [| q | q]; try lia.
  destruct (e'' <=? emax - prec); reflexivity.
Qed.

Lemma shl_align_fst (m : positive) (e e' : Z) :
  e' <= e -> Z.pos (fst (shl_align m e e')) = Z.pos m * 2 ^ (e - e').
Proof.
  intro H. unfold shl_align.
  destruct (e' - e) as [| d | d] eqn:Ed; cbn [fst].
  - replace (e - e') with 0 by lia. cbn. lia.
  - lia.
  - replace (e - e') with (Z.pos d) by lia.
    rewrite Pos.iter_swap_gen with (f := Z.pos) (h := Z.mul 2) by reflexivity.
    clear. induction d as [| d IH] using Pos.peano_ind.
    + cbn. lia.
    + rewrite Pos.iter_succ, IH, Pos2Z.inj_succ, Z.pow_succ_r by lia. lia.
Qed.

Lemma shl_align_snd (m : positive) (e e' : Z) :
  -1074 <= e -> -1074 <= e' -> -1074 <= snd (shl_align m e e').
Proof.
  intros. unfold shl_align. destruct (e' - e); cbn [snd]; lia.
Qed.

(** The sign of a rounded non-zero integer. *)
Lemma binary_normalize_sign (m e : Z) :
  -1074 <= e ->
  SFltb (S754_zero false) (binary_normalize prec emax m e false) = (0 <? m).
Proof.
  intro He. unfold SFltb.
  destruct m as [| p | p]; [reflexivity | |]; cbn [binary_normalize];
    unfold binary_round;
    destruct (shl_align p e (fexp prec emax (Z.pos (digits2_pos p) + e))) as [mz ez] eqn:E;
    (assert (Hez : -1074 <= ez);
     [ change ez with (snd (mz, ez)); rewrite <- E; apply shl_align_snd;
       [exact He | unfold fexp, SpecFloat.emin, prec, emax; lia] |]);
    rewrite binary_round_aux_sign by (try exact Hez; lia); reflexivity.
Qed.

Lemma finite_key_split (m : positive) (e ez : Z) :
  -1074 <= ez <= e ->
  Z.pos m * 2 ^ (e + 1074) = Z.pos m * 2 ^ (e - ez) * 2 ^ (ez + 1074).
Proof.
  intro H. rewrite <- Z.mul_assoc, <- Z.pow_add_r by lia.
  do 2 f_equal. lia.
Qed.

(** The sign of a difference is the order of its operands. *)
Lemma SFsub_sign (x y : spec_float) :
  valid_binary x = true -> valid_binary y = true ->
  x <> S754_nan -> y <> S754_nan ->
  SFltb (S754_zero false) (SFsub prec emax y x) = (SFkey x <? SFkey y).
Proof.
  intros Vx Vy Nx Ny.
  assert (I : 0 < key_infinity) by (apply Z.pow_pos_nonneg; lia).
  destruct x as [sx | sx | | sx mx ex]; [| | congruence |];
    destruct y as [sy | sy | | sy my ey]; try congruence;
    cbn [valid_binary] in Vx, Vy;
    try pose proof (finite_key_bounds mx ex Vx) as Bx;
    try pose proof (finite_key_bounds my ey Vy) as By.
  9: {
    cbn [SFsub SFkey].
    destruct (bounded_inv mx ex Vx) as (Hex & _).
    destruct (bounded_inv my ey Vy) as (Hey & _).
    rewrite binary_normalize_sign by lia.
    rewrite !shl_align_fst by lia.
    rewrite (finite_key_split mx ex (Z.min ey ex)) in * by lia.
    rewrite (finite_key_split my ey (Z.min ey ex)) in * by lia.
    assert (P : 0 < 2 ^ (Z.min ey ex + 1074)) by (apply Z.pow_pos_nonneg; lia).
    set (A := Z.pos my * 2 ^ (ey - Z.min ey ex)) in *.
    set (B := Z.pos mx * 2 ^ (ex - Z.min ey ex)) in *.
    set (Q := 2 ^ (Z.min ey ex + 1074)) in *.
    assert (HA : 0 < A) by (subst A; apply Z.mul_pos_pos; [lia | apply Z.pow_pos_nonneg; lia]).
    assert (HB : 0 < B) by (subst B; apply Z.mul_pos_pos; [lia | apply Z.pow_pos_nonneg; lia]).
    clearbody A B Q. clear Bx By.
    destruct sx, sy; cbn [cond_Zopp];
      apply Bool.eq_iff_eq_true; rewrite !Z.ltb_lt; split; intro; nia. }
  all: cbn [SFsub SFkey]; unfold SFltb;
    try (destruct sx); try (destruct sy); cbn [SFcompare negb cond_Zopp];
    symmetry;
    first [ apply Z.ltb_lt; lia | apply Z.ltb_ge; lia ].
Qed.

(** The same for primitive floats. *)
Lemma is_nan_false (x : float) : is_nan x = false -> Prim2SF x <> S754_nan.
Proof.
  intros H E. apply Prim2SF_nan_eq in E. subst x. discriminate H.
Qed.

Lemma ltb_key (x y : float) :
  is_nan x = false -> is_nan y = false -> (x <? y)%float = (key x <? key y).
Proof.
  intros Hx Hy. rewrite ltb_spec. unfold SFltb, key.
  rewrite (SFcompare_key _ _ (Prim2SF_valid x) (Prim2SF_valid y)
             (is_nan_false x Hx) (is_nan_false y Hy)).
  unfold Z.ltb. destruct (SFkey (Prim2SF x) ?= SFkey (Prim2SF y)); reflexivity.
Qed.

Lemma leb_key (x y : float) :
  is_nan x = false -> is_nan y = false -> (x <=? y)%float = (key x <=? key y).
Proof.
  intros Hx Hy. rewrite leb_spec. unfold SFleb, key.
  rewrite (SFcompare_key _ _ (Prim2SF_valid x) (Prim2SF_valid y)
             (is_nan_false x Hx) (is_nan_false y Hy)).
  unfold Z.leb. destruct (SFkey (Prim2SF x) ?= SFkey (Prim2SF y)); reflexivity.
Qed.

Lemma sub_pos_key (x y : float) :
  is_nan x = false -> is_nan y = false -> (0 <? y - x)%float = (key x <? key y).
Proof.
  intros Hx Hy. rewrite ltb_spec, sub_spec.
  change (Prim2SF 0) with (S754_zero false).
  apply SFsub_sign; auto using Prim2SF_valid, is_nan_false.
Qed.

End Binary64.

(** ** The ranked order (C6) *)

Section SortSorted.

Context {A : Type}.
Variable comparefn : A -> A -> float.
Variable rank_key : A -> Z.
Variable comparable : A -> Prop.

(** On comparable elements the comparator is positive exactly when its
    second argument has the larger key. *)
Hypothesis comparefn_key :
  forall x y, comparable x -> comparable y ->
    (0 <? comparefn x y) = (rank_key x <? rank_key y)%Z.

Let descending (a b : A) : Prop := (rank_key b <= rank_key a)%Z.

Lemma sort_insert_sorted (x : A) (l : list A) :
  comparable x -> Forall comparable l ->
  StronglySorted descending l ->
  StronglySorted descending (sort_insert comparefn x l).
Proof.
  intros Hx Hl Hs. induction l as [| y rest IH]; cbn [sort_insert].
  - constructor; constructor.
  - inversion Hl as [| ? ? Hy Hrest]; subst.
    inversion Hs as [| ? ? Hs' Hall]; subst.
    rewrite (comparefn_key x y Hx Hy).
    destruct (Z.ltb_spec (rank_key x) (rank_key y)) as [Hlt | Hge].
    + constructor; [apply IH; assumption |].
      eapply Permutation_Forall; [apply sort_insert_Permutation |].
      constructor; [unfold descending; lia | exact Hall].
    + constructor; [exact Hs |].
      constructor; [exact Hge |].
      eapply Forall_impl; [| exact Hall].
      unfold descending. intros b Hb. lia.
Qed.

Lemma Array_sort_sorted (l : list A) :
  Forall comparable l -> StronglySorted descending (Array_sort comparefn l).
Proof.
  intro Hl. induction l as [| x rest IH]; cbn [Array_sort].
  - constructor.
  - inversion Hl as [| ? ? Hx Hrest]; subst.
    apply sort_insert_sorted; [exact Hx | | apply IH; exact Hrest].
    eapply Permutation_Forall; [apply Array_sort_Permutation | exact Hrest].
Qed.

Lemma StronglySorted_nth_error (l : list A) :
  StronglySorted descending l ->
  forall i j a b, (i < j)%nat ->
    nth_error l i = Some a -> nth_error l j = Some b ->
    (rank_key b <= rank_key a)%Z.
Proof.
  intro Hs. induction Hs as [| x rest Hs IH Hall]; intros i j a b Hij Ha Hb.
  - destruct i; discriminate Ha.
  - destruct j as [| j']; [inversion Hij |].
    cbn in Hb. destruct i as [| i'].
    + cbn in Ha. injection Ha as <-.
      rewrite Forall_forall in Hall. apply Hall.
      eapply nth_error_In. exact Hb.
    + cbn in Ha. apply (IH i' j' a b); [apply Nat.succ_lt_mono; exact Hij | assumption ..].
Qed.

End SortSorted.

(** C6, as the code has it: the teams of the rendered rows are a
    permutation of the array, and when no team has the score NaN they come
    in descending order of score. *)
Theorem ranking_permutation_descending (population : string -> option float)
    (st : Store) :
  let score := scoreOf population (signals st) in
  let result := map row_team (fst (render population st)) in
  Permutation (MedalTableNOC_array st) result /\
  ((forall t, In t (MedalTableNOC_array st) -> is_nan (score t) = false) ->
   forall i j a b, (i < j)%nat ->
     nth_error result i = Some a -> nth_error result j = Some b ->
     (score b <=? score a) = true).
Proof.
  intros score result. subst result. unfold render. cbn [fst].
  rewrite rows_from_teams.
  set (sorted := Array_sort (compareTeams population (signals st)) (MedalTableNOC_array st)).
  assert (Hperm : Permutation (MedalTableNOC_array st) sorted)
    by apply Array_sort_Permutation.
  split; [exact Hperm |].
  intros Hnan i j a b Hij Ha Hb.
  assert (Hin : forall t, In t sorted -> is_nan (score t) = false).
  { intros t Ht. apply Hnan. eapply Permutation_in; [symmetry; exact Hperm | exact Ht]. }
  rewrite Binary64.leb_key
    by (apply Hin; eapply nth_error_In; eassumption).
  apply Z.leb_le.
  apply (StronglySorted_nth_error (fun t => key (score t)) sorted) with (i := i) (j := j);
    try assumption.
  apply (Array_sort_sorted (compareTeams population (signals st))
           (fun t => key (score t)) (fun t => is_nan (score t) = false)).
  - intros x y Hx Hy. unfold compareTeams. apply Binary64.sub_pos_key; assumption.
  - apply Forall_forall. exact Hnan.
Qed.

Lemma ranking_permutation_descending_witness :
  let st := {| MedalTableNOC_array := [Sample.Z0; Sample.A; Sample.B];
               signals := Sample.defaults |} in
  let score := scoreOf Sample.population (signals st) in
  let result := map row_team (fst (render Sample.population st)) in
  Permutation (MedalTableNOC_array st) result /\
  (forall i j a b, (i < j)%nat ->
     nth_error result i = Some a -> nth_error result j = Some b ->
     (score b <=? score a) = true).
Proof.
  cbv zeta.
  destruct (ranking_permutation_descending Sample.population
              {| MedalTableNOC_array := [Sample.Z0; Sample.A; Sample.B];
                 signals := Sample.defaults |}) as [Hp Hs].
  split; [exact Hp |].
  apply Hs. intros t Ht. cbn in Ht.
  destruct Ht as [<- | [<- | [<- | []]]]; vm_compute; reflexivity.
Defined.

(** C6 fails as stated: with normalisation on and no population entry for
    B, the score of B is NaN, and in the ranked rows of [A; B] the score at
    position 0 is not at least the score at position 1 (whichever of the two
    comes first, since no comparison with NaN holds); likewise when a
    weight does not parse. *)
Lemma ranking_not_descending_with_NaN :
  let st := {| MedalTableNOC_array := [Sample.A; Sample.B];
               signals := Sample.perCapita |} in
  let score := scoreOf Sample.population (signals st) in
  let result := map row_team (fst (render Sample.population st)) in
  (exists a b, nth_error result 0 = Some a /\ nth_error result 1 = Some b /\
     (score b <=? score a) = false) /\
  (score Sample.B <=? score Sample.A) = false /\
  (score Sample.A <=? score Sample.B) = false /\
  let unparsed := {| goldWeight := "abc"; silverWeight := "2"; bronzeWeight := "1";
                     divideByPopulation := false |} in
  (scoreOf Sample.population unparsed Sample.B <=?
   scoreOf Sample.population unparsed Sample.A) = false.
Proof.
  cbv zeta. split; [| repeat split; vm_compute; reflexivity].
  exists Sample.A, Sample.B. repeat split; vm_compute; reflexivity.
Qed.

(** ** The scenario of two countries, from the feed to the rows *)

(** The sample feed validates; its countries A (one gold) and B (three
    silver, three bronze) rank as B, A under the default weights, with the
    scores 3.00001 and 9.00000003003 and the points "3" and "9". *)
Example two_countries_end_to_end :
  exists feed,
    useMedals Sample.goodFeed = OK feed /\
    let st := {| MedalTableNOC_array := countries_of feed;
                 signals := initSignals [] |} in
    map c_NOCShort (MedalTableNOC_array st) = ["AAA"; "BBB"]%string /\
    map (fun r => (row_rank r, c_NOCShort (row_team r), row_points r))
        (fst (render Sample.population st))
    = [(1%nat, "BBB", "9"); (2%nat, "AAA", "3")]%string /\
    map (fun t => Number_toString (scoreOf Sample.population (signals st) t))
        (MedalTableNOC_array st)
    = ["3.00001"; "9.00000003003"]%string.
Proof.
  eexists. split; [vm_compute; reflexivity |].
  repeat split; vm_compute; reflexivity.
Qed.

(** ** The query the visible task writes *)

Lemma syncSearchParams_acts (sig : Signals) (ps : URLSearchParams) :
  syncSearchParams sig ps =
  act "population" (flagAction (divideByPopulation sig))
    (act "bronze" (weightAction (bronzeWeight sig) defaultBronzeWeight)
       (act "silver" (weightAction (silverWeight sig) defaultSilverWeight)
          (act "gold" (weightAction (goldWeight sig) defaultGoldWeight) ps))).
Proof.
  unfold syncSearchParams, weightAction, flagAction.
  destruct (String.eqb (goldWeight sig) defaultGoldWeight),
           (String.eqb (silverWeight sig) defaultSilverWeight),
           (String.eqb (bronzeWeight sig) defaultBronzeWeight),
           (divideByPopulation sig); reflexivity.
Qed.

Lemma filter_delete_other (q : string -> bool) (name : string)
    (ps : URLSearchParams) :
  q name = false ->
  filter (fun kv => q (fst kv)) (searchParams_delete name ps)
  = filter (fun kv => q (fst kv)) ps.
Proof.
  intro Hq. unfold searchParams_delete.
  induction ps as [| [k v] rest IH]; [reflexivity |].
  cbn [filter fst]. destruct (String.eqb k name) eqn:E; cbn [negb filter fst].
  - apply String.eqb_eq in E. subst k. rewrite Hq. exact IH.
  - rewrite IH. reflexivity.
Qed.

Lemma filter_act_other (q : string -> bool) (name : string) (a : action)
    (ps : URLSearchParams) :
  q name = false ->
  filter (fun kv => q (fst kv)) (act name a ps) = filter (fun kv => q (fst kv)) ps.
Proof.
  intro Hq. destruct a as [| value]; cbn [act];
    [apply filter_delete_other; exact Hq |].
  induction ps as [| [k v] rest IH]; cbn [searchParams_set filter fst].
  - rewrite Hq. reflexivity.
  - destruct (String.eqb k name) eqn:E; cbn [filter fst].
    + apply String.eqb_eq in E. subst k. rewrite Hq.
      apply filter_delete_other. exact Hq.
    + rewrite IH. reflexivity.
Qed.

Section Actions.

Variable name : string.

Lemma delete_absent (ps : URLSearchParams) :
  occurrences name ps = 0%nat -> searchParams_delete name ps = ps.
Proof.
  unfold occurrences. induction ps as [| [k v] rest IH]; cbn; [reflexivity |].
  destruct (String.eqb k name); cbn; [discriminate |].
  intro H. f_equal. apply IH. exact H.
Qed.

Lemma occurrences_delete_same (ps : URLSearchParams) :
  occurrences name (searchParams_delete name ps) = 0%nat.
Proof.
  unfold occurrences. induction ps as [| [k v] rest IH]; cbn; [reflexivity |].
  destruct (String.eqb k name) eqn:E; cbn; [exact IH |].
  rewrite E. exact IH.
Qed.

Lemma occurrences_set_same (value : string) (ps : URLSearchParams) :
  occurrences name (searchParams_set name value ps) = 1%nat.
Proof.
  induction ps as [| [k v] rest IH]; cbn.
  - unfold occurrences. cbn. rewrite String.eqb_refl. reflexivity.
  - destruct (String.eqb k name) eqn:E.
    + unfold occurrences. cbn. rewrite String.eqb_refl. cbn.
      f_equal. apply occurrences_delete_same.
    + unfold occurrences in *. cbn. rewrite E. exact IH.
Qed.

Lemma act_settles (a : action) (ps : URLSearchParams) :
  settled name a (act name a ps).
Proof.
  destruct a as [| v]; cbn.
  - apply occurrences_delete_same.
  - split; [apply occurrences_set_same | apply get_set_same].
Qed.

Lemma act_settled (a : action) (ps : URLSearchParams) :
  settled name a ps -> act name a ps = ps.
Proof.
  destruct a as [| value]; cbn; [apply delete_absent |].
  unfold occurrences. induction ps as [| [k v] rest IH]; cbn.
  - intros [H _]. discriminate H.
  - destruct (String.eqb k name) eqn:E; cbn.
    + intros [Hc Hg]. apply String.eqb_eq in E. subst k.
      injection Hg as ->. injection Hc as Hc.
      rewrite (delete_absent rest Hc). reflexivity.
    + intro H. rewrite (IH H). reflexivity.
Qed.

Variable other : string.
Hypothesis other_name : other <> name.

Lemma occurrences_act_other (a : action) (ps : URLSearchParams) :
  occurrences name (act other a ps) = occurrences name ps.
Proof.
  unfold occurrences.
  rewrite (filter_act_other (fun n => String.eqb n name)); [reflexivity |].
  apply String.eqb_neq. exact other_name.
Qed.

Lemma settled_act_other (a b : action) (ps : URLSearchParams) :
  settled name a ps -> settled name a (act other b ps).
Proof.
  assert (Hg : searchParams_get name (act other b ps) = searchParams_get name ps).
  { destruct b; cbn; [apply get_delete_other | apply get_set_other];
      intro; apply other_name; congruence. }
  destruct a as [| v]; cbn; rewrite occurrences_act_other, ?Hg; trivial.
Qed.

End Actions.

(** X1: running the visible task on the query it wrote changes nothing. *)
Theorem syncSearchParams_idempotent (sig : Signals) (ps : URLSearchParams) :
  syncSearchParams sig (syncSearchParams sig ps) = syncSearchParams sig ps.
Proof.
  rewrite (syncSearchParams_acts sig (syncSearchParams sig ps)).
  rewrite (syncSearchParams_acts sig ps).
  set (ag := weightAction (goldWeight sig) defaultGoldWeight).
  set (as_ := weightAction (silverWeight sig) defaultSilverWeight).
  set (ab := weightAction (bronzeWeight sig) defaultBronzeWeight).
  set (ap := flagAction (divideByPopulation sig)).
  set (r := act "population" ap (act "bronze" ab (act "silver" as_ (act "gold" ag ps)))).
  assert (Sg : settled "gold" ag r).
  { subst r. repeat (apply settled_act_other; [discriminate |]). apply act_settles. }
  assert (Ss : settled "silver" as_ r).
  { subst r. repeat (apply settled_act_other; [discriminate |]). apply act_settles. }
  assert (Sb : settled "bronze" ab r).
  { subst r. repeat (apply settled_act_other; [discriminate |]). apply act_settles. }
  assert (Sp : settled "population" ap r) by (subst r; apply act_settles).
  rewrite (act_settled "gold" ag r Sg), (act_settled "silver" as_ r Ss),
    (act_settled "bronze" ab r Sb), (act_settled "population" ap r Sp).
  reflexivity.
Qed.

(** X2: in the query the task wrote, a weight parameter stands exactly once,
    with the text of its signal, when the text is not the default, and not
    at all when it is; "population" stands once, as "true", when the flag is
    on and not at all when it is off. *)
Theorem syncSearchParams_emits (sig : Signals) (ps : URLSearchParams) :
  let query := syncSearchParams sig ps in
  (if String.eqb (goldWeight sig) "3"
   then occurrences "gold" query = 0%nat
   else occurrences "gold" query = 1%nat /\
        searchParams_get "gold" query = Some (goldWeight sig)) /\
  (if String.eqb (silverWeight sig) "2"
   then occurrences "silver" query = 0%nat
   else occurrences "silver" query = 1%nat /\
        searchParams_get "silver" query = Some (silverWeight sig)) /\
  (if String.eqb (bronzeWeight sig) "1"
   then occurrences "bronze" query = 0%nat
   else occurrences "bronze" query = 1%nat /\
        searchParams_get "bronze" query = Some (bronzeWeight sig)) /\
  (if divideByPopulation sig
   then occurrences "population" query = 1%nat /\
        searchParams_get "population" query = Some "true"%string
   else occurrences "population" query = 0%nat).
Proof.
  cbv zeta. rewrite syncSearchParams_acts.
  assert (G : settled "gold" (weightAction (goldWeight sig) defaultGoldWeight)
                (act "population" (flagAction (divideByPopulation sig))
                   (act "bronze" (weightAction (bronzeWeight sig) defaultBronzeWeight)
                      (act "silver" (weightAction (silverWeight sig) defaultSilverWeight)
                         (act "gold" (weightAction (goldWeight sig) defaultGoldWeight) ps)))))
    by (repeat (apply settled_act_other; [discriminate |]); apply act_settles).
  assert (S : settled "silver" (weightAction (silverWeight sig) defaultSilverWeight)
                (act "population" (flagAction (divideByPopulation sig))
                   (act "bronze" (weightAction (bronzeWeight sig) defaultBronzeWeight)
                      (act "silver" (weightAction (silverWeight sig) defaultSilverWeight)
                         (act "gold" (weightAction (goldWeight sig) defaultGoldWeight) ps)))))
    by (repeat (apply settled_act_other; [discriminate |]); apply act_settles).
  assert (B : settled "bronze" (weightAction (bronzeWeight sig) defaultBronzeWeight)
                (act "population" (flagAction (divideByPopulation sig))
                   (act "bronze" (weightAction (bronzeWeight sig) defaultBronzeWeight)
                      (act "silver" (weightAction (silverWeight sig) defaultSilverWeight)
                         (act "gold" (weightAction (goldWeight sig) defaultGoldWeight) ps)))))
    by (repeat (apply settled_act_other; [discriminate |]); apply act_settles).
  assert (P : settled "population" (flagAction (divideByPopulation sig))
                (act "population" (flagAction (divideByPopulation sig))
                   (act "bronze" (weightAction (bronzeWeight sig) defaultBronzeWeight)
                      (act "silver" (weightAction (silverWeight sig) defaultSilverWeight)
                         (act "gold" (weightAction (goldWeight sig) defaultGoldWeight) ps)))))
    by apply act_settles.
  unfold weightAction, flagAction, defaultGoldWeight, defaultSilverWeight,
    defaultBronzeWeight in G, S, B, P |- *.
  destruct (String.eqb (goldWeight sig) "3"), (String.eqb (silverWeight sig) "2"),
           (String.eqb (bronzeWeight sig) "1"), (divideByPopulation sig);
    repeat split; first [apply G | apply S | apply B | apply P].
Qed.

(** X3: the task leaves the parameters of other names as they were, in
    their order; with the default signals its query is exactly those. *)
Theorem syncSearchParams_frame (sig : Signals) (ps : URLSearchParams) :
  otherParams (syncSearchParams sig ps) = otherParams ps /\
  (goldWeight sig = "3"%string -> silverWeight sig = "2"%string ->
   bronzeWeight sig = "1"%string -> divideByPopulation sig = false ->
   syncSearchParams sig ps = otherParams ps).
Proof.
  split.
  - rewrite syncSearchParams_acts. unfold otherParams.
    rewrite !(filter_act_other (fun n => negb (isConfigName n))) by reflexivity.
    reflexivity.
  - intros Hg Hs Hb Hd. unfold syncSearchParams. rewrite Hg, Hs, Hb, Hd.
    change (String.eqb "3" defaultGoldWeight) with true.
    change (String.eqb "2" defaultSilverWeight) with true.
    change (String.eqb "1" defaultBronzeWeight) with true.
    cbv iota. unfold otherParams, searchParams_delete, isConfigName.
    induction ps as [| [k v] rest IH]; [reflexivity |].
    cbn [filter fst].
    destruct (String.eqb k "gold") eqn:E1, (String.eqb k "silver") eqn:E2,
             (String.eqb k "bronze") eqn:E3, (String.eqb k "population") eqn:E4;
      repeat (cbn [negb orb filter fst]; rewrite ?E1, ?E2, ?E3, ?E4);
      rewrite IH; reflexivity.
Qed.

Lemma syncSearchParams_frame_witness :
  syncSearchParams Sample.defaults
    [("tab", "all"); ("gold", "9"); ("population", "x"); ("gold", "8"); ("q", "fr")]
  = otherParams
      [("tab", "all"); ("gold", "9"); ("population", "x"); ("gold", "8"); ("q", "fr")].
Proof.
  apply (proj2 (syncSearchParams_frame Sample.defaults
                  [("tab", "all"); ("gold", "9"); ("population", "x");
                   ("gold", "8"); ("q", "fr")])); reflexivity.
Defined.

(** X4: reading the signals back from the query the task wrote gives the
    signals, whatever their texts (parsable or not) and whatever the query
    was before. *)
Theorem signals_round_trip (sig : Signals) (ps : URLSearchParams) :
  initSignals (syncSearchParams sig ps) = sig /\
  initSignals (syncSearchParams (initSignals ps) ps) = initSignals ps.
Proof.
  split; apply initSignals_syncSearchParams.
Qed.

(** ** Reading the configuration *)

Lemma get_filter_kept (q : string -> bool) (name : string) (ps : URLSearchParams) :
  q name = true ->
  searchParams_get name (filter (fun kv => q (fst kv)) ps) = searchParams_get name ps.
Proof.
  intro Hq. induction ps as [| [k v] rest IH]; [reflexivity |].
  cbn [filter fst searchParams_get].
  destruct (String.eqb k name) eqn:E.
  - apply String.eqb_eq in E. subst k. rewrite Hq.
    cbn [searchParams_get]. rewrite String.eqb_refl. reflexivity.
  - destruct (q k); [cbn [searchParams_get]; rewrite E |]; exact IH.
Qed.

Lemma has_filter_kept (q : string -> bool) (name : string) (ps : URLSearchParams) :
  q name = true ->
  searchParams_has name (filter (fun kv => q (fst kv)) ps) = searchParams_has name ps.
Proof.
  intro Hq. unfold searchParams_has.
  induction ps as [| [k v] rest IH]; [reflexivity |].
  cbn [filter fst existsb].
  destruct (String.eqb k name) eqn:E.
  - apply String.eqb_eq in E. subst k. rewrite Hq.
    cbn [existsb fst]. rewrite String.eqb_refl. reflexivity.
  - destruct (q k); [cbn [existsb fst]; rewrite E |]; exact IH.
Qed.

Lemma get_absent (name : string) (ps : URLSearchParams) :
  occurrences name ps = 0%nat ->
  searchParams_get name ps = None /\ searchParams_has name ps = false.
Proof.
  unfold occurrences, searchParams_has.
  induction ps as [| [k v] rest IH]; [split; reflexivity |].
  cbn [filter fst searchParams_get existsb].
  destruct (String.eqb k name); [discriminate |]. exact IH.
Qed.

(** X17: the signals read from a query depend on its gold, silver, bronze
    and population parameters only; a query with none of the four gives the
    defaults "3", "2", "1" and no normalisation. *)
Theorem initSignals_frame (ps : URLSearchParams) :
  initSignals ps = initSignals (configParams ps) /\
  (occurrences "gold" ps = 0%nat -> occurrences "silver" ps = 0%nat ->
   occurrences "bronze" ps = 0%nat -> occurrences "population" ps = 0%nat ->
   initSignals ps =
   {| goldWeight := "3"; silverWeight := "2"; bronzeWeight := "1";
      divideByPopulation := false |}).
Proof.
  split.
  - unfold initSignals, configParams.
    rewrite !(get_filter_kept isConfigName) by reflexivity.
    rewrite (has_filter_kept isConfigName) by reflexivity. reflexivity.
  - intros Hg Hs Hb Hp. unfold initSignals.
    rewrite (proj1 (get_absent _ _ Hg)), (proj1 (get_absent _ _ Hs)),
      (proj1 (get_absent _ _ Hb)), (proj2 (get_absent _ _ Hp)).
    reflexivity.
Qed.

Lemma initSignals_frame_witness :
  initSignals [("tab", "all"); ("q", "fr")] =
  {| goldWeight := "3"; silverWeight := "2"; bronzeWeight := "1";
     divideByPopulation := false |}.
Proof.
  apply (proj2 (initSignals_frame [("tab", "all"); ("q", "fr")])); reflexivity.
Defined.

(** ** The rendered rows *)

Lemma rows_from_ranks (population : string -> option float) (sig : Signals)
    (i : nat) (teams : list MedalTableNOC) :
  map row_rank (rows_from population sig i teams) = seq (S i) (List.length teams).
Proof.
  revert i. induction teams as [| t rest IH]; intro i; cbn; [reflexivity |].
  rewrite IH, Nat.add_1_r. reflexivity.
Qed.

(** X5: a rendering gives one row for each record of the array, and the ranks
    shown are 1, 2, ..., in the order of the rows (ties do not share a
    rank). *)
Theorem render_ranks (population : string -> option float) (st : Store) :
  List.length (fst (render population st)) = List.length (MedalTableNOC_array st) /\
  map row_rank (fst (render population st)) = seq 1 (List.length (MedalTableNOC_array st)).
Proof.
  unfold render. cbn [fst].
  assert (L : List.length (Array_sort (compareTeams population (signals st))
                             (MedalTableNOC_array st))
              = List.length (MedalTableNOC_array st)).
  { symmetry. apply Permutation_length. apply Array_sort_Permutation. }
  split.
  - rewrite <- (length_map row_team), rows_from_teams. exact L.
  - rewrite rows_from_ranks, L. reflexivity.
Qed.

Section SortStable.

Context {A : Type}.
Variable comparefn : A -> A -> float.
Variable rank_key : A -> Z.
Variable comparable : A -> Prop.

Hypothesis comparefn_key :
  forall x y, comparable x -> comparable y ->
    (0 <? comparefn x y) = (rank_key x <? rank_key y)%Z.

(** Sorting an array that is in descending order leaves it as it is. *)
Lemma Array_sort_sorted_id (l : list A) :
  Forall comparable l ->
  StronglySorted (fun a b => (rank_key b <= rank_key a)%Z) l ->
  Array_sort comparefn l = l.
Proof.
  intros Hl Hs. induction Hs as [| x rest Hs IH Hall]; [reflexivity |].
  inversion Hl as [| ? ? Hx Hrest]; subst.
  cbn [Array_sort]. rewrite (IH Hrest).
  destruct rest as [| y rest']; [reflexivity |].
  cbn [sort_insert].
  inversion Hrest as [| ? ? Hy _]; subst.
  inversion Hall as [| ? ? Hxy _]; subst.
  rewrite (comparefn_key x y Hx Hy).
  destruct (Z.ltb_spec (rank_key x) (rank_key y)); [lia | reflexivity].
Qed.

(** The sort keeps the order of the elements of one key. *)
Lemma sort_insert_stable (k : Z) (x : A) (l : list A) :
  comparable x -> Forall comparable l ->
  filter (fun t => (rank_key t =? k)%Z) (sort_insert comparefn x l)
  = filter (fun t => (rank_key t =? k)%Z) (x :: l).
Proof.
  intros Hx Hl. induction l as [| y rest IH]; [reflexivity |].
  inversion Hl as [| ? ? Hy Hrest]; subst.
  cbn [sort_insert]. rewrite (comparefn_key x y Hx Hy).
  destruct (Z.ltb_spec (rank_key x) (rank_key y)) as [Hlt | Hge]; [| reflexivity].
  cbn [filter]. rewrite (IH Hrest). cbn [filter].
  destruct (Z.eqb_spec (rank_key x) k), (Z.eqb_spec (rank_key y) k);
    try reflexivity. lia.
Qed.

Lemma Array_sort_stable (k : Z) (l : list A) :
  Forall comparable l ->
  filter (fun t => (rank_key t =? k)%Z) (Array_sort comparefn l)
  = filter (fun t => (rank_key t =? k)%Z) l.
Proof.
  intro Hl. induction l as [| x rest IH]; [reflexivity |].
  inversion Hl as [| ? ? Hx Hrest]; subst.
  cbn [Array_sort].
  rewrite sort_insert_stable;
    [| exact Hx
     | eapply Permutation_Forall; [apply Array_sort_Permutation | exact Hrest]].
  cbn [filter]. rewrite (IH Hrest). reflexivity.
Qed.

End SortStable.

(** A comparator that is never positive leaves the array as it is. *)
Lemma Array_sort_never_positive {A : Type} (comparefn : A -> A -> float) (l : list A) :
  (forall x y, (0 <? comparefn x y) = false) -> Array_sort comparefn l = l.
Proof.
  intro H. induction l as [| x rest IH]; [reflexivity |].
  cbn [Array_sort]. rewrite IH.
  destruct rest as [| y rest']; [reflexivity |].
  cbn [sort_insert]. rewrite H. reflexivity.
Qed.

Lemma eqb_key (x y : float) :
  is_nan x = false -> is_nan y = false -> (x =? y) = (key x =? key y)%Z.
Proof.
  intros Hx Hy. rewrite eqb_spec. unfold SFeqb, key.
  rewrite (Binary64.SFcompare_key _ _ (Prim2SF_valid x) (Prim2SF_valid y)
             (Binary64.is_nan_false x Hx) (Binary64.is_nan_false y Hy)).
  destruct (Z.eqb_spec (SFkey (Prim2SF x)) (SFkey (Prim2SF y))) as [E | E].
  - rewrite E, Z.compare_refl. reflexivity.
  - destruct (SFkey (Prim2SF x) ?= SFkey (Prim2SF y))%Z eqn:C; try reflexivity.
    apply Z.compare_eq in C. contradiction.
Qed.

Lemma sorted_scores_comparable (population : string -> option float) (sig : Signals)
    (x y : MedalTableNOC) :
  is_nan (scoreOf population sig x) = false ->
  is_nan (scoreOf population sig y) = false ->
  (0 <? compareTeams population sig x y)
  = (key (scoreOf population sig x) <? key (scoreOf population sig y))%Z.
Proof.
  intros Hx Hy. unfold compareTeams. apply Binary64.sub_pos_key; assumption.
Qed.

(** X6: when no team has the score NaN, rendering again changes nothing:
    the array the first rendering left is in its ranked order, and the
    second rendering gives the same rows. *)
Theorem render_again (population : string -> option float) (st : Store) :
  (forall t, In t (MedalTableNOC_array st) ->
     is_nan (scoreOf population (signals st) t) = false) ->
  render population (snd (render population st)) = render population st.
Proof.
  intro Hnan. unfold render. cbn [snd signals MedalTableNOC_array].
  set (sig := signals st).
  set (sorted := Array_sort (compareTeams population sig) (MedalTableNOC_array st)).
  assert (Hall : Forall (fun t => is_nan (scoreOf population sig t) = false) sorted).
  { eapply Permutation_Forall; [apply Array_sort_Permutation |].
    apply Forall_forall. exact Hnan. }
  assert (E : Array_sort (compareTeams population sig) sorted = sorted).
  { apply (Array_sort_sorted_id (compareTeams population sig)
             (fun t => key (scoreOf population sig t))
             (fun t => is_nan (scoreOf population sig t) = false)).
    - intros x y. apply sorted_scores_comparable.
    - exact Hall.
    - apply (Array_sort_sorted (compareTeams population sig)
               (fun t => key (scoreOf population sig t))
               (fun t => is_nan (scoreOf population sig t) = false)).
      + intros x y. apply sorted_scores_comparable.
      + apply Forall_forall. exact Hnan. }
  rewrite E. reflexivity.
Qed.

Lemma render_again_witness :
  let st := {| MedalTableNOC_array := [Sample.Z0; Sample.A; Sample.B];
               signals := Sample.defaults |} in
  render Sample.population (snd (render Sample.population st))
  = render Sample.population st.
Proof.
  apply (render_again Sample.population
           {| MedalTableNOC_array := [Sample.Z0; Sample.A; Sample.B];
              signals := Sample.defaults |}).
  intros t Ht. cbn in Ht.
  destruct Ht as [<- | [<- | [<- | []]]]; vm_compute; reflexivity.
Defined.

(** X7: when no team has the score NaN, the teams of one score come in the
    rows in the order the array had them. *)
Theorem render_stable (population : string -> option float) (st : Store) (s : float) :
  (forall t, In t (MedalTableNOC_array st) ->
     is_nan (scoreOf population (signals st) t) = false) ->
  is_nan s = false ->
  filter (fun t => scoreOf population (signals st) t =? s)
         (map row_team (fst (render population st)))
  = filter (fun t => scoreOf population (signals st) t =? s)
           (MedalTableNOC_array st).
Proof.
  intros Hnan Hs. unfold render. cbn [fst]. rewrite rows_from_teams.
  set (sig := signals st) in *.
  set (sorted := Array_sort (compareTeams population sig) (MedalTableNOC_array st)).
  assert (Hall : Forall (fun t => is_nan (scoreOf population sig t) = false)
                   (MedalTableNOC_array st))
    by (apply Forall_forall; exact Hnan).
  assert (Hsorted : Forall (fun t => is_nan (scoreOf population sig t) = false) sorted)
    by (eapply Permutation_Forall; [apply Array_sort_Permutation | exact Hall]).
  assert (F : forall l, Forall (fun t => is_nan (scoreOf population sig t) = false) l ->
              filter (fun t => scoreOf population sig t =? s) l
              = filter (fun t => (key (scoreOf population sig t) =? key s)%Z) l).
  { intros l Hl. apply filter_ext_in. intros t Ht.
    rewrite Forall_forall in Hl. apply eqb_key; [apply Hl; exact Ht | exact Hs]. }
  rewrite (F sorted Hsorted), (F _ Hall).
  apply (Array_sort_stable (compareTeams population sig)
           (fun t => key (scoreOf population sig t))
           (fun t => is_nan (scoreOf population sig t) = false)).
  - intros x y. apply sorted_scores_comparable.
  - exact Hall.
Qed.

Lemma render_stable_witness :
  let st := {| MedalTableNOC_array :=
                 [Sample.Z0; Sample.team 4 "Nil" "NNN" 0 0 0; Sample.A];
               signals := Sample.defaults |} in
  filter (fun t => scoreOf Sample.population (signals st) t =? 0)
         (map row_team (fst (render Sample.population st)))
  = filter (fun t => scoreOf Sample.population (signals st) t =? 0)
           (MedalTableNOC_array st).
Proof.
  apply (render_stable Sample.population
           {| MedalTableNOC_array :=
                [Sample.Z0; Sample.team 4 "Nil" "NNN" 0 0 0; Sample.A];
              signals := Sample.defaults |} 0).
  - intros t Ht. cbn in Ht.
    destruct Ht as [<- | [<- | [<- | []]]]; vm_compute; reflexivity.
  - reflexivity.
Defined.

(** ** Weights that do not parse *)

Lemma mul_nan_r (x : float) : x * nan = nan.
Proof.
  apply Prim2SF_nan_eq. rewrite mul_spec.
  change (Prim2SF nan) with S754_nan.
  destruct (Prim2SF x); reflexivity.
Qed.

Lemma add_nan_l (x : float) : nan + x = nan.
Proof.
  apply Prim2SF_nan_eq. rewrite add_spec.
  change (Prim2SF nan) with S754_nan. reflexivity.
Qed.

Lemma add_nan_r (x : float) : x + nan = nan.
Proof.
  apply Prim2SF_nan_eq. rewrite add_spec.
  change (Prim2SF nan) with S754_nan.
  destruct (Prim2SF x); reflexivity.
Qed.

Lemma sub_nan_nan : (0 <? nan - nan) = false.
Proof. reflexivity. Qed.

Lemma getIndex_unparsable (population : string -> option float)
    (team : MedalTableNOC) (gs ss bs : string) (d : bool) :
  starts_with_integer gs = false \/ starts_with_integer ss = false \/
  starts_with_integer bs = false ->
  getIndex population team gs ss bs d = nan.
Proof.
  unfold getIndex.
  intros [H | [H | H]]; rewrite (parseInt_no_integer _ H);
    rewrite ?add_nan_l, ?mul_nan_r, ?add_nan_l, ?add_nan_r, ?add_nan_l;
    apply div_nan_l.
Qed.

Lemma weightedTotal_unparsable (sig : Signals) (team : MedalTableNOC) :
  starts_with_integer (goldWeight sig) = false \/
  starts_with_integer (silverWeight sig) = false \/
  starts_with_integer (bronzeWeight sig) = false ->
  weightedTotal sig team = nan.
Proof.
  unfold weightedTotal.
  intros [H | [H | H]]; rewrite (parseInt_no_integer _ H);
    rewrite ?mul_nan_r, ?add_nan_l, ?add_nan_r, ?add_nan_l; reflexivity.
Qed.

(** X8: when one of the three weight texts does not start with an integer,
    every team has the score NaN, the rows keep the order of the array, and
    the last cell of every row reads "NaN" ("NaNB" in the population
    mode). *)
Theorem unparsable_weight (population : string -> option float) (st : Store) :
  starts_with_integer (goldWeight (signals st)) = false \/
  starts_with_integer (silverWeight (signals st)) = false \/
  starts_with_integer (bronzeWeight (signals st)) = false ->
  (forall team, scoreOf population (signals st) team = nan) /\
  map row_team (fst (render population st)) = MedalTableNOC_array st /\
  (forall row, In row (fst (render population st)) ->
     row_points row =
     if divideByPopulation (signals st) then "NaNB"%string else "NaN"%string).
Proof.
  intro H.
  assert (Hscore : forall team, scoreOf population (signals st) team = nan)
    by (intro team; apply getIndex_unparsable; exact H).
  assert (E : Array_sort (compareTeams population (signals st)) (MedalTableNOC_array st)
              = MedalTableNOC_array st).
  { apply Array_sort_never_positive. intros x y. unfold compareTeams.
    fold (scoreOf population (signals st) x). fold (scoreOf population (signals st) y).
    rewrite !Hscore. reflexivity. }
  split; [exact Hscore |]. unfold render. cbn [fst]. rewrite E. clear E.
  split; [apply rows_from_teams |].
  generalize 0%nat.
  induction (MedalTableNOC_array st) as [| t rest IH]; intros i row Hin;
    cbn [rows_from] in Hin; [destruct Hin |].
  destruct Hin as [<- | Hin]; [| exact (IH (Datatypes.S i) row Hin)].
  cbn [row_points]. unfold pointsCell.
  rewrite (weightedTotal_unparsable _ t H).
  destruct (divideByPopulation (signals st)); [| reflexivity].
  rewrite div_nan_r. reflexivity.
Qed.

Lemma unparsable_weight_witness :
  let st := {| MedalTableNOC_array := [Sample.A; Sample.B];
               signals := {| goldWeight := "abc"; silverWeight := "2";
                             bronzeWeight := "1"; divideByPopulation := false |} |} in
  (forall team, scoreOf Sample.population (signals st) team = nan) /\
  map row_team (fst (render Sample.population st)) = MedalTableNOC_array st /\
  (forall row, In row (fst (render Sample.population st)) ->
     row_points row = "NaN"%string).
Proof.
  apply (unparsable_weight Sample.population
           {| MedalTableNOC_array := [Sample.A; Sample.B];
              signals := {| goldWeight := "abc"; silverWeight := "2";
                            bronzeWeight := "1"; divideByPopulation := false |} |}).
  left. reflexivity.
Defined.

(** ** The tiers of formatBigNumber and the labels *)

Lemma is_nan_true (x : float) : is_nan x = true -> x = nan.
Proof.
  unfold is_nan. rewrite eqb_spec. intro H.
  apply Prim2SF_nan_eq.
  destruct (Prim2SF x) as [s | s | | s m e]; try reflexivity;
    exfalso; unfold SFeqb in H; cbn [SFcompare] in H.
  - discriminate H.
  - destruct s; discriminate H.
  - destruct s; rewrite Z.compare_refl, Pos.compare_cont_refl in H;
      cbn in H; discriminate H.
Qed.

Lemma ltb_true_not_nan (x y : float) :
  (x <? y) = true -> is_nan x = false /\ is_nan y = false.
Proof.
  intro H. split.
  - destruct (is_nan x) eqn:E; [| reflexivity].
    apply is_nan_true in E. subst x. rewrite ltb_spec in H.
    change (Prim2SF nan) with S754_nan in H. discriminate H.
  - destruct (is_nan y) eqn:E; [| reflexivity].
    apply is_nan_true in E. subst y. rewrite ltb_spec in H.
    change (Prim2SF nan) with S754_nan in H.
    destruct (Prim2SF x); discriminate H.
Qed.

Lemma leb_true_not_nan (x y : float) :
  (x <=? y) = true -> is_nan x = false /\ is_nan y = false.
Proof.
  intro H. split.
  - destruct (is_nan x) eqn:E; [| reflexivity].
    apply is_nan_true in E. subst x. rewrite leb_spec in H.
    change (Prim2SF nan) with S754_nan in H. discriminate H.
  - destruct (is_nan y) eqn:E; [| reflexivity].
    apply is_nan_true in E. subst y. rewrite leb_spec in H.
    change (Prim2SF nan) with S754_nan in H.
    destruct (Prim2SF x); discriminate H.
Qed.

(** X9: formatBigNumber by tier: a negative number gets no suffix, however
    large its magnitude; from 1e3 the thousands get "K", from 1e6 the
    millions "M", and from 1e9 on, +Infinity included, the billions "B";
    NaN reads "NaNB". *)
Theorem formatBigNumber_tiers (x : float) :
  ((x <? 0) = true -> formatBigNumber x = toFixed0 x) /\
  ((1e3 <=? x) = true -> (x <? 1e6) = true ->
   formatBigNumber x = (toFixed0 (x / 1e3) ++ "K")%string) /\
  ((1e6 <=? x) = true -> (x <? 1e9) = true ->
   formatBigNumber x = (toFixed0 (x / 1e6) ++ "M")%string) /\
  ((1e9 <=? x) = true ->
   formatBigNumber x = (toFixed0 (x / 1e9) ++ "B")%string) /\
  (is_nan x = true -> formatBigNumber x = "NaNB"%string).
Proof.
  assert (K3 : key 1e3 = key 1e3) by reflexivity.
  assert (O : (key 0 < key 1e3 /\ key 1e3 < key 1e6 /\ key 1e6 < key 1e9)%Z)
    by (repeat split; vm_compute; reflexivity).
  set (k0 := key 0) in *. set (k3 := key 1e3) in *.
  set (k6 := key 1e6) in *. set (k9 := key 1e9) in *.
  unfold formatBigNumber. repeat split.
  - intro H. destruct (ltb_true_not_nan _ _ H) as [Nx _].
    rewrite Binary64.ltb_key in H by (try exact Nx; reflexivity).
    rewrite (Binary64.ltb_key x 1e3) by (try exact Nx; reflexivity).
    fold k0 in H. fold k3. apply Z.ltb_lt in H.
    destruct (Z.ltb_spec (key x) k3); [reflexivity | lia].
  - intros H1 H2. destruct (ltb_true_not_nan _ _ H2) as [Nx _].
    rewrite H2. rewrite Binary64.leb_key in H1 by (try exact Nx; reflexivity).
    rewrite (Binary64.ltb_key x 1e3) by (try exact Nx; reflexivity).
    fold k3 in H1 |- *. apply Z.leb_le in H1.
    destruct (Z.ltb_spec (key x) k3); [lia | reflexivity].
  - intros H1 H2. destruct (ltb_true_not_nan _ _ H2) as [Nx _].
    rewrite H2. rewrite Binary64.leb_key in H1 by (try exact Nx; reflexivity).
    rewrite (Binary64.ltb_key x 1e3), (Binary64.ltb_key x 1e6)
      by (try exact Nx; reflexivity).
    fold k3 k6 in H1 |- *. apply Z.leb_le in H1.
    destruct (Z.ltb_spec (key x) k3); [lia |].
    destruct (Z.ltb_spec (key x) k6); [lia | reflexivity].
  - intro H1. destruct (leb_true_not_nan _ _ H1) as [_ Nx].
    rewrite Binary64.leb_key in H1 by (try exact Nx; reflexivity).
    rewrite (Binary64.ltb_key x 1e3), (Binary64.ltb_key x 1e6),
      (Binary64.ltb_key x 1e9) by (try exact Nx; reflexivity).
    fold k3 k6 k9 in H1 |- *. apply Z.leb_le in H1.
    destruct (Z.ltb_spec (key x) k3); [lia |].
    destruct (Z.ltb_spec (key x) k6); [lia |].
    destruct (Z.ltb_spec (key x) k9); [lia | reflexivity].
  - intro H. apply is_nan_true in H. subst x. reflexivity.
Qed.

Lemma formatBigNumber_tiers_witness :
  formatBigNumber (-5000000) = toFixed0 (-5000000) /\
  formatBigNumber 2500 = (toFixed0 (2500 / 1e3) ++ "K")%string /\
  formatBigNumber 7654321 = (toFixed0 (7654321 / 1e6) ++ "M")%string /\
  formatBigNumber infinity = (toFixed0 (infinity / 1e9) ++ "B")%string /\
  formatBigNumber nan = "NaNB"%string.
Proof.
  refine (conj _ (conj _ (conj _ (conj _ _)))).
  - apply (proj1 (formatBigNumber_tiers (-5000000))). reflexivity.
  - apply (proj1 (proj2 (formatBigNumber_tiers 2500))); reflexivity.
  - apply (proj1 (proj2 (proj2 (formatBigNumber_tiers 7654321)))); reflexivity.
  - apply (proj1 (proj2 (proj2 (proj2 (formatBigNumber_tiers infinity))))). reflexivity.
  - apply (proj2 (proj2 (proj2 (proj2 (formatBigNumber_tiers nan))))). reflexivity.
Defined.

Lemma last_char_append (a b : string) :
  b <> EmptyString -> last_char (a ++ b)%string = last_char b.
Proof.
  intro Hb. induction a as [| c a IH]; [reflexivity |].
  cbn [append last_char]. rewrite IH.
  destruct (a ++ b)%string eqn:E; [| reflexivity].
  destruct a; [cbn in E; contradiction | discriminate E].
Qed.

Lemma eqb_one_not_zero (x : float) : (x =? 1) = true -> (x =? 0) = false.
Proof.
  rewrite !eqb_spec.
  change (Prim2SF 1) with (S754_finite false 4503599627370496 (-52)).
  change (Prim2SF 0) with (S754_zero false).
  destruct (Prim2SF x) as [s | s | | s m e]; try destruct s; try reflexivity;
    discriminate.
Qed.

(** X10: the label is "Tiebreaker" exactly when the weight text parses to
    zero, "1 point" exactly when it parses to one, and otherwise the parsed
    number followed by " points"; for the slider values 2 to 10 that is the
    value itself. *)
Theorem getWeightText_labels (weight : string) :
  (getWeightText weight = "Tiebreaker"%string <-> (parseInt weight =? 0) = true) /\
  (getWeightText weight = "1 point"%string <-> (parseInt weight =? 1) = true) /\
  ((parseInt weight =? 0) = false -> (parseInt weight =? 1) = false ->
   getWeightText weight = (Number_toString (parseInt weight) ++ " points")%string) /\
  (forall n : Z, (2 <= n <= 10)%Z -> weight = string_of_Z n ->
     getWeightText weight = (string_of_Z n ++ " points")%string).
Proof.
  assert (P : forall a, (a ++ " points")%string <> "Tiebreaker"%string /\
                        (a ++ " points")%string <> "1 point"%string).
  { intro a. split; intro E; apply (f_equal last_char) in E;
      rewrite last_char_append in E by discriminate; discriminate E. }
  unfold getWeightText. cbv zeta.
  repeat split.
  - destruct (parseInt weight =? 0); [reflexivity |].
    destruct (parseInt weight =? 1); [discriminate |].
    intro E. destruct (proj1 (P _) E).
  - intros ->. reflexivity.
  - destruct (parseInt weight =? 0); [discriminate |].
    destruct (parseInt weight =? 1); [reflexivity |].
    intro E. destruct (proj2 (P _) E).
  - intro H. rewrite (eqb_one_not_zero _ H), H. reflexivity.
  - intros -> ->. reflexivity.
  - intros n Hn ->.
    assert (C : (n = 2 \/ n = 3 \/ n = 4 \/ n = 5 \/ n = 6 \/ n = 7 \/ n = 8 \/
                 n = 9 \/ n = 10)%Z) by lia.
    repeat (destruct C as [-> | C]; [vm_compute; reflexivity |]).
    subst n. vm_compute. reflexivity.
Qed.

Lemma getWeightText_labels_witness :
  getWeightText "7" = (string_of_Z 7 ++ " points")%string /\
  getWeightText "-0" = "Tiebreaker"%string /\
  getWeightText "1.9" = "1 point"%string.
Proof.
  refine (conj _ (conj _ _)).
  - apply (proj2 (proj2 (proj2 (getWeightText_labels "7"))) 7%Z); [lia | reflexivity].
  - apply (proj1 (getWeightText_labels "-0")). reflexivity.
  - apply (proj1 (proj2 (getWeightText_labels "1.9"))). reflexivity.
Defined.

(** ** What the validation reports and returns *)

Lemma ZodType_shape_ind (P : ZodType -> Prop) :
  P string_ -> P number_ ->
  (forall inner, P inner -> P (nullable inner)) ->
  (forall element, P element -> P (array element)) ->
  (forall shape, Forall (fun kt => P (snd kt)) shape -> P (object shape)) ->
  forall t, P t.
Proof.
  intros Hs Hn Hnull Harr Hobj. fix IH 1. intro t.
  destruct t as [| | inner | element | shape].
  - exact Hs.
  - exact Hn.
  - apply Hnull. apply IH.
  - apply Harr. apply IH.
  - apply Hobj. induction shape as [| kt rest IHr]; constructor.
    + apply IH.
    + exact IHr.
Qed.

(** A failed parse reports at least one issue. *)
Lemma parse_reports (t : ZodType) (at_ : path) (d : option json) :
  parse t at_ d <> INVALID [].
Proof.
  induction t as [| | inner IH | element IH | shape]; cbn [parse].
  - destruct d as [[] |]; discriminate.
  - destruct d as [[| | x | | |] |]; try discriminate.
    destruct (is_nan x); discriminate.
  - destruct d as [[] |]; try apply IH. discriminate.
  - destruct d as [[| | | | items |] |]; try discriminate.
    destruct (parse_items _ at_ element 0 items) as [vs [| q is_]]; discriminate.
  - destruct d as [[| | | | | props] |]; try discriminate.
    destruct (parse_shape _ at_ props shape) as [vs [| q is_]]; discriminate.
Qed.

Section NestedResults.

Variable parse_at : ZodType -> path -> option json -> ParseReturn.
Variable at_ : path.
Hypothesis parse_at_reports : forall t p d, parse_at t p d <> INVALID [].

(** With no issue, the values of a shape are those of its keys, in order;
    every issue is the issue of a key. *)
Lemma parse_shape_spec (props : list (string * json)) (shape : list (string * ZodType)) :
  (snd (parse_shape parse_at at_ props shape) = [] ->
   Forall2 (fun kt kv =>
              fst kv = fst kt /\
              parse_at (snd kt) (at_ ++ [Key (fst kt)])%list (get_prop (fst kt) props)
              = OK (snd kv))
           shape (fst (parse_shape parse_at at_ props shape))) /\
  (forall q, In q (snd (parse_shape parse_at at_ props shape)) ->
     exists k tk issues,
       In (k, tk) shape /\
       parse_at tk (at_ ++ [Key k])%list (get_prop k props) = INVALID issues /\
       In q issues).
Proof.
  induction shape as [| [k tk] rest [IH1 IH2]]; cbn [parse_shape].
  - split; [intros _; constructor | intros q []].
  - destruct (parse_shape parse_at at_ props rest) as [vs is_].
    cbn [fst snd] in IH1, IH2.
    destruct (parse_at tk (at_ ++ [Key k])%list (get_prop k props)) as [v | i1] eqn:E;
      cbn [fst snd]; split.
    + intro H. constructor; [split; [reflexivity | exact E] | exact (IH1 H)].
    + intros q Hq. destruct (IH2 q Hq) as (k' & tk' & is' & Hin & Hp & Hq').
      exists k', tk', is'. repeat split; [right; exact Hin | exact Hp | exact Hq'].
    + intro H. apply app_eq_nil in H. destruct H as [-> H].
      destruct (parse_at_reports _ _ _ E).
    + intros q Hq. apply in_app_or in Hq. destruct Hq as [Hq | Hq].
      * exists k, tk, i1. repeat split; [left; reflexivity | exact E | exact Hq].
      * destruct (IH2 q Hq) as (k' & tk' & is' & Hin & Hp & Hq').
        exists k', tk', is'. repeat split; [right; exact Hin | exact Hp | exact Hq'].
Qed.

(** The same for the items of an array. *)
Lemma parse_items_spec (element : ZodType) (items : list json) (i0 : nat) :
  (snd (parse_items parse_at at_ element i0 items) = [] ->
   Forall2 (fun x v => exists i, parse_at element (at_ ++ [Index i])%list (Some x) = OK v)
           items (fst (parse_items parse_at at_ element i0 items))) /\
  (forall q, In q (snd (parse_items parse_at at_ element i0 items)) ->
     exists i x issues,
       nth_error items i = Some x /\
       parse_at element (at_ ++ [Index (i0 + i)])%list (Some x) = INVALID issues /\
       In q issues).
Proof.
  revert i0. induction items as [| x rest IH]; intro i0; cbn [parse_items].
  - split; [intros _; constructor | intros q []].
  - destruct (IH (S i0)) as [IH1 IH2].
    destruct (parse_items parse_at at_ element (S i0) rest) as [vs is_].
    cbn [fst snd] in IH1, IH2.
    destruct (parse_at element (at_ ++ [Index i0])%list (Some x)) as [v | i1] eqn:E;
      cbn [fst snd]; split.
    + intro H. constructor; [exists i0; exact E | exact (IH1 H)].
    + intros q Hq. destruct (IH2 q Hq) as (i & y & is' & Hn & Hp & Hq').
      exists (S i), y, is'. rewrite <- Nat.add_succ_comm.
      repeat split; assumption.
    + intro H. apply app_eq_nil in H. destruct H as [-> H].
      destruct (parse_at_reports _ _ _ E).
    + intros q Hq. apply in_app_or in Hq. destruct Hq as [Hq | Hq].
      * exists 0%nat, x, i1. rewrite Nat.add_0_r.
        repeat split; [exact E | exact Hq].
      * destruct (IH2 q Hq) as (i & y & is' & Hn & Hp & Hq').
        exists (S i), y, is'. rewrite <- Nat.add_succ_comm.
        repeat split; assumption.
Qed.

End NestedResults.

Lemma shape_get_In (shape : list (string * ZodType)) (k : string) (tk : ZodType) :
  distinct (map fst shape) = true -> In (k, tk) shape -> shape_get k shape = Some tk.
Proof.
  induction shape as [| [k0 t0] rest IH]; intros Hd Hin; [destruct Hin |].
  cbn [map fst distinct] in Hd. apply andb_prop in Hd. destruct Hd as [Hk Hd].
  cbn [shape_get]. destruct Hin as [E | Hin].
  - injection E as -> ->. rewrite String.eqb_refl. reflexivity.
  - destruct (String.eqb k k0) eqn:Ek; [| apply IH; assumption].
    apply String.eqb_eq in Ek. subst k0. exfalso.
    apply negb_true_iff in Hk.
    assert (existsb (String.eqb k) (map fst rest) = true).
    { apply existsb_exists. exists k. split; [| apply String.eqb_refl].
      change k with (fst (k, tk)). apply in_map. exact Hin. }
    congruence.
Qed.

Lemma deviates_nullable (inner : ZodType) (d : option json) (p : path) :
  d <> Some JNull -> deviates_at inner d p -> deviates_at (nullable inner) d p.
Proof.
  intros Hd (tp & dp & Hloc & Hk). destruct p as [| seg p'].
  - cbn in Hloc. injection Hloc as <- <-.
    exists (nullable inner), d. split; [reflexivity |].
    cbn [kind_ok]. destruct d as [[] |]; try exact Hk. congruence.
  - exists tp, dp. split; [exact Hloc | exact Hk].
Qed.

(** Every issue of a failed parse stands at a deviation. *)
Lemma parse_issues_deviate (t : ZodType) :
  well_formed t = true ->
  forall at_ d issues q,
    parse t at_ d = INVALID issues -> In q issues ->
    exists p, q = (at_ ++ p)%list /\ deviates_at t d p.
Proof.
  induction t as [| | inner IH | element IH | shape IH] using ZodType_shape_ind;
    intros Hwf at_ d issues q Hp Hq; cbn [parse] in Hp.
  - assert (issues = [at_] /\ kind_ok string_ d = false) as [-> Hk]
      by (destruct d as [[] |]; try discriminate Hp; injection Hp as <-;
          split; reflexivity).
    destruct Hq as [<- | []]. exists []. rewrite app_nil_r.
    split; [reflexivity |]. exists string_, d. split; [reflexivity | exact Hk].
  - assert (issues = [at_] /\ kind_ok number_ d = false) as [-> Hk].
    { destruct d as [[| | x | | |] |]; try (injection Hp as <-; split; reflexivity).
      cbn [kind_ok]. destruct (is_nan x); [| discriminate Hp].
      injection Hp as <-. split; reflexivity. }
    destruct Hq as [<- | []]. exists []. rewrite app_nil_r.
    split; [reflexivity |]. exists number_, d. split; [reflexivity | exact Hk].
  - assert (Hd : d <> Some JNull) by (intros ->; discriminate Hp).
    assert (Hp' : parse inner at_ d = INVALID issues)
      by (destruct d as [[] |]; try exact Hp; congruence).
    destruct (IH Hwf at_ d issues q Hp' Hq) as (p & -> & Hdev).
    exists p. split; [reflexivity | apply deviates_nullable; assumption].
  - destruct d as [[| | | | items |] |];
      try (injection Hp as <-; destruct Hq as [<- | []]; exists [];
           rewrite app_nil_r; split; [reflexivity |];
           eexists; eexists; split; reflexivity).
    pose proof (parse_items_spec (fun t' => parse t') at_
                  (fun t' p d => parse_reports t' p d) element items 0) as [_ S2].
    destruct (parse_items (fun t' => parse t') at_ element 0 items) as [vs is_].
    cbn [snd] in S2.
    destruct is_ as [| q0 is_]; [discriminate Hp |]. injection Hp as <-.
    destruct (S2 q Hq) as (i & x & is1 & Hn & Hpx & Hqx). cbn [Nat.add] in Hpx.
    destruct (IH Hwf _ _ _ q Hpx Hqx) as (p' & -> & tp & dp & Hloc & Hk).
    exists (Index i :: p'). rewrite <- app_assoc. split; [reflexivity |].
    exists tp, dp. split; [| exact Hk].
    cbn [locate strip_nullable]. rewrite Hn. exact Hloc.
  - destruct d as [[| | | | | props] |];
      try (injection Hp as <-; destruct Hq as [<- | []]; exists [];
           rewrite app_nil_r; split; [reflexivity |];
           eexists; eexists; split; reflexivity).
    cbn [well_formed] in Hwf. apply andb_prop in Hwf. destruct Hwf as [Hdist Hwfs].
    pose proof (parse_shape_spec (fun t' => parse t') at_
                  (fun t' p d => parse_reports t' p d) props shape) as [_ S2].
    destruct (parse_shape (fun t' => parse t') at_ props shape) as [vs is_].
    cbn [snd] in S2.
    destruct is_ as [| q0 is_]; [discriminate Hp |]. injection Hp as <-.
    destruct (S2 q Hq) as (k & tk & is1 & Hin & Hpk & Hqk).
    rewrite Forall_forall in IH. rewrite forallb_forall in Hwfs.
    destruct (IH (k, tk) Hin (Hwfs (k, tk) Hin) _ _ _ q Hpk Hqk)
      as (p' & -> & tp & dp & Hloc & Hk).
    exists (Key k :: p'). rewrite <- app_assoc. split; [reflexivity |].
    exists tp, dp. split; [| exact Hk].
    cbn [locate strip_nullable]. rewrite (shape_get_In shape k tk Hdist Hin).
    exact Hloc.
Qed.

(** X11: when the validation of a payload fails, it reports at least one
    issue, and every issue it reports is the path of a deviation of the
    payload from the schema; so a payload is accepted exactly when it
    deviates nowhere. *)
Theorem useMedals_issues (raw : json) :
  (forall issues, useMedals raw = INVALID issues ->
     issues <> [] /\
     forall q, In q issues -> deviates_at medalTableSchema (Some raw) q) /\
  ((exists feed, useMedals raw = OK feed) <->
   (forall p, ~ deviates_at medalTableSchema (Some raw) p)).
Proof.
  assert (I : forall issues, useMedals raw = INVALID issues ->
                issues <> [] /\
                forall q, In q issues -> deviates_at medalTableSchema (Some raw) q).
  { intros issues H. split.
    - intros ->. exact (parse_reports _ _ _ H).
    - intros q Hq.
      destruct (parse_issues_deviate medalTableSchema eq_refl [] (Some raw) issues q H Hq)
        as (p & -> & Hd). exact Hd. }
  split; [exact I |]. split.
  - intros [feed H] p Hd.
    destruct (parse_deviation p medalTableSchema (Some raw) [] Hd) as (issues & H' & _).
    unfold useMedals in H. congruence.
  - intro Hno. destruct (useMedals raw) as [feed | issues] eqn:E.
    + exists feed. reflexivity.
    + exfalso. destruct (I issues eq_refl) as [Hne Hall].
      destruct issues as [| q rest]; [congruence |].
      exact (Hno q (Hall q (or_introl eq_refl))).
Qed.

Lemma useMedals_issues_witness :
  [[Key "MedalTableNOC"; Index 1; Key "n_Silver"]] <> [] /\
  forall q, In q [[Key "MedalTableNOC"; Index 1; Key "n_Silver"]] ->
    deviates_at medalTableSchema (Some Sample.stringFeed) q.
Proof.
  apply (proj1 (useMedals_issues Sample.stringFeed)
           [[Key "MedalTableNOC"; Index 1; Key "n_Silver"]]).
  reflexivity.
Defined.

Section NestedFixed.

Variable parse_at : ZodType -> path -> option json -> ParseReturn.
Variable at_ : path.

Lemma parse_items_fixed (element : ZodType) (vs : list json) :
  Forall (fun v => forall p, parse_at element p (Some v) = OK v) vs ->
  forall i, parse_items parse_at at_ element i vs = (vs, []).
Proof.
  induction 1 as [| v rest Hv _ IH]; intro i; cbn [parse_items]; [reflexivity |].
  rewrite IH, Hv. reflexivity.
Qed.

Lemma parse_shape_fixed (props : list (string * json))
    (shape : list (string * ZodType)) (vs : list (string * json)) :
  Forall2 (fun kt kv =>
             fst kv = fst kt /\
             get_prop (fst kt) props = Some (snd kv) /\
             forall p, parse_at (snd kt) p (Some (snd kv)) = OK (snd kv))
          shape vs ->
  parse_shape parse_at at_ props shape = (vs, []).
Proof.
  induction 1 as [| [k tk] [k' v] shape' vs' (Hk & Hg & Hp) _ IH];
    cbn [parse_shape]; [reflexivity |].
  cbn [fst snd] in Hk, Hg, Hp. subst k'. rewrite IH, Hg, Hp. reflexivity.
Qed.

End NestedFixed.

Lemma get_prop_In (props : list (string * json)) (k : string) (v : json) :
  distinct (map fst props) = true -> In (k, v) props -> get_prop k props = Some v.
Proof.
  induction props as [| [k0 v0] rest IH]; intros Hd Hin; [destruct Hin |].
  cbn [map fst distinct] in Hd. apply andb_prop in Hd. destruct Hd as [Hk Hd].
  cbn [get_prop]. destruct Hin as [E | Hin].
  - injection E as -> ->. rewrite String.eqb_refl. reflexivity.
  - destruct (String.eqb k k0) eqn:Ek; [| apply IH; assumption].
    apply String.eqb_eq in Ek. subst k0. exfalso.
    apply negb_true_iff in Hk.
    assert (existsb (String.eqb k) (map fst rest) = true).
    { apply existsb_exists. exists k. split; [| apply String.eqb_refl].
      change k with (fst (k, v)). apply in_map. exact Hin. }
    congruence.
Qed.

(** The value of an accepted object has the keys of the shape, in order. *)
Lemma parse_object_keys (shape : list (string * ZodType)) (at_ : path)
    (d : option json) (v : json) :
  parse (object shape) at_ d = OK v ->
  exists props vs,
    d = Some (JObject props) /\ v = JObject vs /\ map fst vs = map fst shape /\
    Forall2 (fun kt kv =>
               fst kv = fst kt /\
               parse (snd kt) (at_ ++ [Key (fst kt)])%list (get_prop (fst kt) props)
               = OK (snd kv)) shape vs.
Proof.
  cbn [parse]. intro H.
  destruct d as [[| | | | | props] |]; try discriminate H.
  pose proof (parse_shape_spec (fun t' => parse t') at_
                (fun t' p d => parse_reports t' p d) props shape) as [S1 _].
  destruct (parse_shape (fun t' => parse t') at_ props shape) as [vs is_].
  cbn [fst snd] in S1.
  destruct is_ as [| q is_]; [| discriminate H]. injection H as <-.
  exists props, vs. repeat split; [| exact (S1 eq_refl)].
  specialize (S1 eq_refl). clear - S1.
  induction S1 as [| kt kv shape' vs' [Hk _] _ IH]; [reflexivity |].
  cbn [map]. rewrite Hk, IH. reflexivity.
Qed.

(** An accepted value is accepted again, as itself. *)
Lemma parse_idempotent (t : ZodType) :
  well_formed t = true ->
  forall at_ d v, parse t at_ d = OK v ->
  forall at', parse t at' (Some v) = OK v.
Proof.
  induction t as [| | inner IH | element IH | shape IH] using ZodType_shape_ind;
    intros Hwf at_ d v Hp at'.
  - cbn [parse] in Hp. destruct d as [[] |]; try discriminate Hp.
    injection Hp as <-. reflexivity.
  - cbn [parse] in Hp. destruct d as [[| | x | | |] |]; try discriminate Hp.
    destruct (is_nan x) eqn:E; [discriminate Hp |].
    injection Hp as <-. cbn [parse]. rewrite E. reflexivity.
  - cbn [parse] in Hp.
    assert (Hv : v = JNull \/ parse inner at_ d = OK v).
    { destruct d as [[] |]; try (right; exact Hp). left. congruence. }
    destruct Hv as [-> | Hv]; [reflexivity |].
    pose proof (IH Hwf at_ d v Hv at') as H'.
    cbn [parse]. destruct v; try exact H'. reflexivity.
  - cbn [parse] in Hp. destruct d as [[| | | | items |] |]; try discriminate Hp.
    pose proof (parse_items_spec (fun t' => parse t') at_
                  (fun t' p d => parse_reports t' p d) element items 0) as [S1 _].
    destruct (parse_items (fun t' => parse t') at_ element 0 items) as [vs is_].
    cbn [fst snd] in S1.
    destruct is_ as [| q is_]; [| discriminate Hp]. injection Hp as <-.
    cbn [parse]. rewrite parse_items_fixed; [reflexivity |].
    specialize (S1 eq_refl). clear - S1 IH Hwf.
    induction S1 as [| x v items' vs' [i Hx] _ IHs]; constructor; [| exact IHs].
    intro p. exact (IH Hwf _ _ _ Hx p).
  - destruct (parse_object_keys shape at_ d v Hp) as (props & vs & -> & -> & Hkeys & F).
    cbn [well_formed] in Hwf. apply andb_prop in Hwf. destruct Hwf as [Hdist Hwfs].
    cbn [parse]. rewrite (parse_shape_fixed _ at' vs shape vs); [reflexivity |].
    assert (Hdv : distinct (map fst vs) = true) by (rewrite Hkeys; exact Hdist).
    assert (G : forall k x, In (k, x) vs -> get_prop k vs = Some x)
      by (intros k x; apply get_prop_In; exact Hdv).
    rewrite forallb_forall in Hwfs. rewrite Forall_forall in IH.
    assert (IH' : forall kt, In kt shape ->
              forall a d0 v0, parse (snd kt) a d0 = OK v0 ->
              forall a', parse (snd kt) a' (Some v0) = OK v0)
      by (intros kt Hin; exact (IH kt Hin (Hwfs kt Hin))).
    assert (Hgen : forall all,
              (forall k x, In (k, x) vs -> get_prop k all = Some x) ->
              Forall2 (fun kt kv =>
                         fst kv = fst kt /\
                         get_prop (fst kt) all = Some (snd kv) /\
                         forall p, parse (snd kt) p (Some (snd kv)) = OK (snd kv))
                      shape vs).
    { clear - F IH'.
      induction F as [| [k tk] [k' x] shape' vs' [Hk Hx] _ IHF]; intros all G;
        constructor.
      - cbn [fst snd] in *. subst k'. split; [reflexivity |]. split.
        + apply G. left. reflexivity.
        + intro p. exact (IH' (k, tk) (or_introl eq_refl) _ _ _ Hx p).
      - apply IHF.
        + intros kt Hin. apply IH'. right. exact Hin.
        + intros k0 x0 Hin. apply G. right. exact Hin. }
    exact (Hgen vs G).
Qed.

(** X12: an accepted feed holds exactly the declared keys (what else the
    payload held is dropped), and validating it again accepts it as it
    is. *)
Theorem useMedals_accepts_own_output (raw feed : json) :
  useMedals raw = OK feed ->
  useMedals feed = OK feed /\
  exists info nocs,
    feed = JObject [("MedalTableInfo", JObject info); ("MedalTableNOC", JArray nocs)] /\
    map fst info = shape_keys medalTableInfoSchema /\
    Forall (fun noc => exists o, noc = JObject o /\
                                 map fst o = shape_keys medalTableNOCSchema) nocs.
Proof.
  intro H. split; [exact (parse_idempotent medalTableSchema eq_refl _ _ _ H []) |].
  destruct (parse_object_keys _ _ _ _ H) as (props & vs & _ & -> & _ & F).
  inversion F as [| kt1 [k1 v1] s1 vs1 [Hk1 Hp1] F1]; subst.
  inversion F1 as [| kt2 [k2 v2] s2 vs2 [Hk2 Hp2] F2]; subst.
  inversion F2; subst. cbn [fst snd] in *. subst k1 k2.
  destruct (parse_object_keys _ _ _ _ Hp1) as (_ & info & _ & -> & Hinfo & _).
  cbn [parse] in Hp2.
  destruct (get_prop "MedalTableNOC" props) as [[| | | | items |] |];
    try discriminate Hp2.
  pose proof (parse_items_spec (fun t' => parse t') [Key "MedalTableNOC"]
                (fun t' p d => parse_reports t' p d) medalTableNOCSchema items 0)
    as [S1 _].
  cbn [app] in Hp2, S1.
  destruct (parse_items (fun t' => parse t') [Key "MedalTableNOC"]
              medalTableNOCSchema 0 items) as [nocs is_].
  cbn [fst snd] in S1.
  destruct is_ as [| q is_]; [| discriminate Hp2]. injection Hp2 as <-.
  exists info, nocs. repeat split; [exact Hinfo |].
  specialize (S1 eq_refl). clear - S1.
  induction S1 as [| x v items' nocs' [i Hx] _ IH]; constructor; [| exact IH].
  destruct (parse_object_keys _ _ _ _ Hx) as (_ & o & _ & -> & Ho & _).
  exists o. split; [reflexivity | exact Ho].
Qed.

Lemma useMedals_accepts_own_output_witness :
  exists feed,
    useMedals Sample.goodFeed = OK feed /\
    useMedals feed = OK feed /\
    exists info nocs,
      feed = JObject [("MedalTableInfo", JObject info); ("MedalTableNOC", JArray nocs)] /\
      map fst info = shape_keys medalTableInfoSchema /\
      Forall (fun noc => exists o, noc = JObject o /\
                                   map fst o = shape_keys medalTableNOCSchema) nocs.
Proof.
  eexists. split; [vm_compute; reflexivity |].
  apply (useMedals_accepts_own_output Sample.goodFeed). vm_compute. reflexivity.
Defined.

Lemma parse_number_OK (p : path) (d : option json) (v : json) :
  parse number_ p d = OK v ->
  exists n, d = Some (JNumber n) /\ v = JNumber n /\ is_nan n = false.
Proof.
  cbn [parse]. destruct d as [[| | x | | |] |]; try discriminate.
  destruct (is_nan x) eqn:E; [discriminate |].
  intro H. injection H as <-. exists x. repeat split. exact E.
Qed.

Lemma parse_string_OK (p : path) (d : option json) (v : json) :
  parse string_ p d = OK v -> exists s, d = Some (JString s) /\ v = JString s.
Proof.
  cbn [parse]. destruct d as [[| | | s | |] |]; try discriminate.
  intro H. injection H as <-. exists s. split; reflexivity.
Qed.

(** An accepted country record has every field of the typed record, with
    the values the payload gave. *)
Lemma validated_country (p : path) (x v : json) :
  parse medalTableNOCSchema p (Some x) = OK v ->
  exists c, as_MedalTableNOC x = Some c /\ as_MedalTableNOC v = Some c.
Proof.
  intro H.
  destruct (parse_object_keys _ _ _ _ H) as (props & vs & E & -> & _ & F).
  injection E as ->.
  repeat match goal with
         | F : Forall2 _ (_ :: _) _ |- _ =>
             let kv := fresh "kv" in
             let Hk := fresh "Hk" in
             let Hp := fresh "Hp" in
             inversion F as [| ? kv ? ? [Hk Hp] ?]; clear F; subst;
             destruct kv; cbn [fst snd] in Hk, Hp; subst
         | F : Forall2 _ [] _ |- _ => inversion F; clear F; subst
         end.
  repeat match goal with
         | Hp : parse number_ _ _ = OK _ |- _ =>
             let n := fresh "n" in
             let E1 := fresh "E" in
             apply parse_number_OK in Hp; destruct Hp as (n & E1 & -> & _)
         | Hp : parse string_ _ _ = OK _ |- _ =>
             let n := fresh "s" in
             let E1 := fresh "E" in
             apply parse_string_OK in Hp; destruct Hp as (n & E1 & ->)
         end.
  eexists. split.
  - unfold as_MedalTableNOC, get_number, get_string.
    repeat match goal with
           | E1 : get_prop _ props = Some _ |- _ => rewrite E1; clear E1
           end.
    cbn [bind]. reflexivity.
  - reflexivity.
Qed.

(** X13: every country record of an accepted feed becomes a typed record:
    the records the page ranks are, in order, those of the items of the
    payload's MedalTableNOC array, read field by field (no item is dropped
    and no value is changed). *)
Theorem validated_countries (raw feed : json) :
  useMedals raw = OK feed ->
  exists props items,
    raw = JObject props /\
    get_prop "MedalTableNOC" props = Some (JArray items) /\
    map as_MedalTableNOC items = map Some (countries_of feed) /\
    List.length (countries_of feed) = List.length items.
Proof.
  intro H.
  destruct (parse_object_keys _ _ _ _ H) as (props & vs & E & -> & _ & F).
  injection E as ->.
  inversion F as [| kt1 [k1 v1] s1 vs1 [Hk1 Hp1] F1]; subst.
  inversion F1 as [| kt2 [k2 v2] s2 vs2 [Hk2 Hp2] F2]; subst.
  inversion F2; subst. cbn [fst snd] in *. subst k1 k2.
  cbn [parse] in Hp2.
  destruct (get_prop "MedalTableNOC" props) as [[| | | | items |] |] eqn:G;
    try discriminate Hp2.
  pose proof (parse_items_spec (fun t' => parse t') [Key "MedalTableNOC"]
                (fun t' p d => parse_reports t' p d) medalTableNOCSchema items 0)
    as [S1 _].
  cbn [app] in Hp2, S1.
  destruct (parse_items (fun t' => parse t') [Key "MedalTableNOC"]
              medalTableNOCSchema 0 items) as [nocs is_].
  cbn [fst snd] in S1.
  destruct is_ as [| q is_]; [| discriminate Hp2]. injection Hp2 as <-.
  exists props, items. split; [reflexivity |]. split; [exact G |].
  specialize (S1 eq_refl). clear - S1.
  cbn [countries_of get_prop String.eqb Ascii.eqb Bool.eqb].
  change (get_prop "MedalTableNOC"
            [("MedalTableInfo", v1); ("MedalTableNOC", JArray nocs)])
    with (Some (JArray nocs)).
  cbv iota.
  induction S1 as [| x v items' nocs' [i Hx] _ [IH1 IH2]]; [split; reflexivity |].
  destruct (validated_country _ _ _ Hx) as (c & Ex & Ev).
  cbn [flat_map map]. rewrite Ex, Ev. cbn [app map List.length].
  rewrite IH1, IH2. split; reflexivity.
Qed.

Lemma validated_countries_witness :
  exists feed,
    useMedals Sample.goodFeed = OK feed /\
    exists props items,
      Sample.goodFeed = JObject props /\
      get_prop "MedalTableNOC" props = Some (JArray items) /\
      map as_MedalTableNOC items = map Some (countries_of feed) /\
      List.length (countries_of feed) = List.length items.
Proof.
  eexists. split; [vm_compute; reflexivity |].
  apply (validated_countries Sample.goodFeed). vm_compute. reflexivity.
Defined.

(** X14: the response of the time service is accepted exactly when it is
    an object whose "timezone" is a string and whose "unixtime" is a number
    other than NaN; the accepted value holds these two and nothing else. *)
Theorem timeSchema_accepts (response v : json) :
  timeSchema_parse response = OK v <->
  exists props tz t,
    response = JObject props /\
    get_prop "timezone" props = Some (JString tz) /\
    get_prop "unixtime" props = Some (JNumber t) /\
    is_nan t = false /\
    v = JObject [("timezone", JString tz); ("unixtime", JNumber t)].
Proof.
  unfold timeSchema_parse, timeSchema. split.
  - intro H.
    destruct (parse_object_keys _ _ _ _ H) as (props & vs & E & -> & _ & F).
    injection E as ->.
    inversion F as [| kt1 [k1 v1] s1 vs1 [Hk1 Hp1] F1]; subst.
    inversion F1 as [| kt2 [k2 v2] s2 vs2 [Hk2 Hp2] F2]; subst.
    inversion F2; subst. cbn [fst snd] in *. subst k1 k2.
    apply parse_string_OK in Hp1. destruct Hp1 as (tz & Etz & ->).
    apply parse_number_OK in Hp2. destruct Hp2 as (t & Et & -> & Hn).
    exists props, tz, t. repeat split; assumption.
  - intros (props & tz & t & -> & Etz & Et & Hn & ->).
    cbn [parse parse_shape app]. rewrite Etz, Et. cbn [parse]. rewrite Hn.
    reflexivity.
Qed.

Lemma timeSchema_accepts_witness :
  timeSchema_parse
    (JObject [("abbreviation", JString "CEST"); ("timezone", JString "Europe/Paris");
              ("unixtime", JNumber 1722513600)])
  = OK (JObject [("timezone", JString "Europe/Paris"); ("unixtime", JNumber 1722513600)]).
Proof.
  apply (proj2 (timeSchema_accepts _ _)).
  exists [("abbreviation", JString "CEST"); ("timezone", JString "Europe/Paris");
          ("unixtime", JNumber 1722513600)], "Europe/Paris"%string, 1722513600.
  repeat split.
Defined.

(** Two descending lists with the same elements are the same list. *)
Lemma descending_unique (l1 l2 : list Z) :
  StronglySorted (fun a b => (b <= a)%Z) l1 ->
  StronglySorted (fun a b => (b <= a)%Z) l2 ->
  Permutation l1 l2 -> l1 = l2.
Proof.
  intro S1. revert l2. induction S1 as [| x r1 S1 IH A1]; intros l2 S2 P.
  - apply Permutation_nil in P. symmetry. exact P.
  - destruct S2 as [| y r2 S2 A2].
    + symmetry in P. apply Permutation_nil in P. discriminate P.
    + assert (x = y).
      { rewrite Forall_forall in A1, A2.
        assert (Hx : In x (y :: r2)) by (eapply Permutation_in; [exact P | left; reflexivity]).
        assert (Hy : In y (x :: r1))
          by (eapply Permutation_in; [symmetry; exact P | left; reflexivity]).
        destruct Hx as [-> | Hx]; [reflexivity |].
        destruct Hy as [-> | Hy]; [reflexivity |].
        specialize (A1 y Hy). specialize (A2 x Hx). lia. }
      subst y. f_equal. apply IH; [exact S2 |].
      eapply Permutation_cons_inv. exact P.
Qed.

Lemma StronglySorted_map {A : Type} (f : A -> Z) (l : list A) :
  StronglySorted (fun a b => (f b <= f a)%Z) l ->
  StronglySorted (fun a b => (b <= a)%Z) (map f l).
Proof.
  induction 1 as [| x r S IH Hall]; cbn [map]; constructor; [exact IH |].
  rewrite Forall_forall in *. intros k Hk. apply in_map_iff in Hk.
  destruct Hk as (t & <- & Ht). apply Hall. exact Ht.
Qed.

Lemma map_eq_Forall2 {A : Type} (f : A -> Z) (l1 l2 : list A) :
  map f l1 = map f l2 -> Forall2 (fun a b => f a = f b) l1 l2.
Proof.
  revert l2. induction l1 as [| x r IH]; intros [| y r2] E; try discriminate E;
    constructor; injection E as E1 E2; [exact E1 | apply IH; exact E2].
Qed.

(** X15: when no team has the score NaN, the order in which the feed lists
    the teams does not change the scores down the rows: two arrays with the
    same records give rows that agree in score, place by place. *)
Theorem render_order_independent (population : string -> option float)
    (sig : Signals) (l l' : list MedalTableNOC) :
  Permutation l l' ->
  (forall t, In t l -> is_nan (scoreOf population sig t) = false) ->
  Forall2 (fun a b => (scoreOf population sig a =? scoreOf population sig b) = true)
    (map row_team (fst (render population {| MedalTableNOC_array := l; signals := sig |})))
    (map row_team (fst (render population {| MedalTableNOC_array := l'; signals := sig |}))).
Proof.
  intros P Hnan. unfold render. cbn [fst signals MedalTableNOC_array].
  rewrite !rows_from_teams.
  set (K := fun t => key (scoreOf population sig t)).
  set (ok := fun t => is_nan (scoreOf population sig t) = false).
  assert (Hl : Forall ok l) by (apply Forall_forall; exact Hnan).
  assert (Hl' : Forall ok l') by (eapply Permutation_Forall; eassumption).
  assert (C : forall x y, ok x -> ok y ->
                (0 <? compareTeams population sig x y) = (K x <? K y)%Z)
    by (intros x y; apply sorted_scores_comparable).
  set (s := Array_sort (compareTeams population sig) l).
  set (s' := Array_sort (compareTeams population sig) l').
  assert (Ps : Permutation l s) by apply Array_sort_Permutation.
  assert (Ps' : Permutation l' s') by apply Array_sort_Permutation.
  assert (E : map K s = map K s').
  { apply descending_unique.
    - apply StronglySorted_map. apply (Array_sort_sorted _ K ok C). exact Hl.
    - apply StronglySorted_map. apply (Array_sort_sorted _ K ok C). exact Hl'.
    - apply Permutation_map.
      eapply perm_trans; [symmetry; exact Ps |].
      eapply perm_trans; [exact P | exact Ps']. }
  apply map_eq_Forall2 in E.
  assert (Hs : Forall ok s) by (eapply Permutation_Forall; eassumption).
  assert (Hs' : Forall ok s') by (eapply Permutation_Forall; eassumption).
  clear - E Hs Hs'. induction E as [| a b r r' Hab _ IH]; constructor.
  - inversion Hs; inversion Hs'; subst.
    rewrite eqb_key by assumption. apply Z.eqb_eq. exact Hab.
  - inversion Hs; inversion Hs'; subst. apply IH; assumption.
Qed.

Lemma render_order_independent_witness :
  Forall2 (fun a b => (scoreOf Sample.population Sample.defaults a =?
                       scoreOf Sample.population Sample.defaults b) = true)
    (map row_team (fst (render Sample.population
       {| MedalTableNOC_array := [Sample.Z0; Sample.A; Sample.B];
          signals := Sample.defaults |})))
    (map row_team (fst (render Sample.population
       {| MedalTableNOC_array := [Sample.B; Sample.Z0; Sample.A];
          signals := Sample.defaults |}))).
Proof.
  apply (render_order_independent Sample.population Sample.defaults
           [Sample.Z0; Sample.A; Sample.B] [Sample.B; Sample.Z0; Sample.A]).
  - apply Permutation_sym. apply (Permutation_cons_app [Sample.Z0; Sample.A] []).
    apply Permutation_refl.
  - intros t Ht. cbn in Ht.
    destruct Ht as [<- | [<- | [<- | []]]]; vm_compute; reflexivity.
Defined.

(** ** Integer arithmetic below 2^53 is exact *)

Module Exact.

Local Open Scope Z_scope.

(** The number of bits is fixed by the two powers around the number. *)
Lemma digits_unique (m : positive) (d : Z) :
  2 ^ (d - 1) <= Z.pos m < 2 ^ d -> 0 < d -> Z.pos (digits2_pos m) = d.
Proof.
  intros [Hlo Hhi] Hd.
  pose proof (Binary64.digits2_pos_bounds m) as [Blo Bhi].
  set (D := Z.pos (digits2_pos m)) in *.
  assert (0 < D) by (unfold D; lia).
  destruct (Z.lt_trichotomy D d) as [L | [E | G]]; [| exact E |].
  - exfalso. assert (2 ^ D <= 2 ^ (d - 1)) by (apply Z.pow_le_mono_r; lia). lia.
  - exfalso. assert (2 ^ d <= 2 ^ (D - 1)) by (apply Z.pow_le_mono_r; lia). lia.
Qed.

Lemma digits_shift (N : positive) (j : Z) :
  0 <= j ->
  Zdigits2 (Z.pos N * 2 ^ j) = Z.pos (digits2_pos N) + j.
Proof.
  intro Hj.
  pose proof (Binary64.digits2_pos_bounds N) as [Blo Bhi].
  assert (P : 0 < 2 ^ j) by (apply Z.pow_pos_nonneg; lia).
  destruct (Z.pos N * 2 ^ j) as [| q | q] eqn:E; try lia.
  cbn [Zdigits2]. apply digits_unique; [| lia].
  rewrite <- E.
  replace (Z.pos (digits2_pos N) + j - 1) with (Z.pos (digits2_pos N) - 1 + j) by lia.
  rewrite !Z.pow_add_r by lia. nia.
Qed.

Lemma iter_shr_zero_bits (n : positive) :
  forall m, 0 < m ->
    iter_pos shr_1 n {| shr_m := m * 2 ^ Z.pos n; shr_r := false; shr_s := false |}
    = {| shr_m := m; shr_r := false; shr_s := false |}.
Proof.
  induction n as [n IH | n IH |]; intros m Hm; cbn [iter_pos].
  - assert (P : 0 < 2 ^ Z.pos n) by (apply Z.pow_pos_nonneg; lia).
    replace (m * 2 ^ Z.pos n~1) with (Z.pos (Z.to_pos (m * 2 ^ Z.pos n * 2 ^ Z.pos n))~0).
    + cbn [shr_1 orb]. rewrite Z2Pos.id by nia.
      rewrite IH by nia. apply IH. exact Hm.
    + rewrite Pos2Z.inj_xO, Z2Pos.id by nia.
      assert (E : 2 ^ Z.pos n~1 = 2 * (2 ^ Z.pos n * 2 ^ Z.pos n))
        by (rewrite <- Z.pow_add_r, <- Z.pow_succ_r by lia; f_equal; lia).
      rewrite E. lia.
  - assert (P : 0 < 2 ^ Z.pos n) by (apply Z.pow_pos_nonneg; lia).
    replace (m * 2 ^ Z.pos n~0) with (m * 2 ^ Z.pos n * 2 ^ Z.pos n).
    + rewrite IH by nia. apply IH. exact Hm.
    + assert (E : 2 ^ Z.pos n~0 = 2 ^ Z.pos n * 2 ^ Z.pos n)
        by (rewrite <- Z.pow_add_r by lia; f_equal; lia).
      rewrite E. lia.
  - destruct m as [| p | p]; try lia.
    change (Z.pos p * 2 ^ 1) with (Z.pos p * 2).
    replace (Z.pos p * 2) with (Z.pos p~0) by lia. reflexivity.
Qed.

(** A mantissa that is the integer followed by zero bits rounds to the
    integer itself. *)
Lemma shr_fexp_exact (N : positive) (j : Z) :
  Z.pos N < 2 ^ 53 -> 53 - Z.pos (digits2_pos N) <= j ->
  shr_fexp prec emax (Z.pos N * 2 ^ j) (- j) loc_Exact
  = ({| shr_m := Z.pos N * 2 ^ (53 - Z.pos (digits2_pos N));
        shr_r := false; shr_s := false |},
     Z.pos (digits2_pos N) - 53).
Proof.
  intros HN Hj.
  pose proof (Binary64.digits2_pos_bounds N) as [Blo Bhi].
  set (D := Z.pos (digits2_pos N)) in *.
  assert (HD : 0 < D <= 53).
  { split; [unfold D; lia |].
    destruct (Z.le_gt_cases D 53) as [L | G]; [exact L | exfalso].
    assert (2 ^ 53 <= 2 ^ (D - 1)) by (apply Z.pow_le_mono_r; lia). lia. }
  assert (Hj0 : 0 <= j) by lia.
  unfold shr_fexp. rewrite digits_shift by exact Hj0. fold D.
  unfold fexp, SpecFloat.emin, prec, emax.
  replace (Z.max (D + j + - j - 53) (3 - 1024 - 53) - - j) with (j - (53 - D)) by lia.
  cbn [shr_record_of_loc]. unfold shr.
  destruct (j - (53 - D)) as [| n | n] eqn:En; try lia.
  - replace j with (53 - D) by lia. f_equal. lia.
  - replace (Z.pos N * 2 ^ j) with (Z.pos N * 2 ^ (53 - D) * 2 ^ Z.pos n).
    + rewrite iter_shr_zero_bits
        by (apply Z.mul_pos_pos; [lia | apply Z.pow_pos_nonneg; lia]).
      f_equal. lia.
    + rewrite <- Z.mul_assoc, <- Z.pow_add_r by lia. do 2 f_equal. lia.
Qed.

Lemma binary_round_aux_exact (s : bool) (N : positive) (j : Z) :
  Z.pos N < 2 ^ 53 -> 53 - Z.pos (digits2_pos N) <= j ->
  binary_round_aux prec emax s (Z.pos N * 2 ^ j) (- j) loc_Exact = canon s N.
Proof.
  intros HN Hj. unfold binary_round_aux.
  rewrite (shr_fexp_exact N j HN Hj).
  cbn [shr_m loc_of_shr_record round_nearest_even].
  pose proof (Binary64.digits2_pos_bounds N) as [Blo Bhi].
  set (D := Z.pos (digits2_pos N)) in *.
  assert (HD : 0 < D <= 53).
  { split; [unfold D; lia |].
    destruct (Z.le_gt_cases D 53) as [L | G]; [exact L | exfalso].
    assert (2 ^ 53 <= 2 ^ (D - 1)) by (apply Z.pow_le_mono_r; lia). lia. }
  replace (D - 53) with (- (53 - D)) by lia.
  rewrite (shr_fexp_exact N (53 - D) HN) by (fold D; lia).
  cbn [shr_m]. fold D.
  assert (P : 0 < Z.pos N * 2 ^ (53 - D))
    by (apply Z.mul_pos_pos; [lia | apply Z.pow_pos_nonneg; lia]).
  unfold canon. fold D.
  destruct (Z.pos N * 2 ^ (53 - D)) as [| q | q] eqn:E; try lia.
  unfold prec, emax.
  destruct (Z.leb_spec (D - 53) (1024 - 53)); [| lia].
  reflexivity.
Qed.

Lemma digits_le_53 (N : positive) :
  Z.pos N < 2 ^ 53 -> 0 < Z.pos (digits2_pos N) <= 53.
Proof.
  intro HN. pose proof (Binary64.digits2_pos_bounds N) as [Blo Bhi].
  split; [lia |].
  destruct (Z.le_gt_cases (Z.pos (digits2_pos N)) 53) as [L | G]; [exact L | exfalso].
  assert (2 ^ 53 <= 2 ^ (Z.pos (digits2_pos N) - 1)) by (apply Z.pow_le_mono_r; lia).
  lia.
Qed.

Lemma canon_mantissa (N : positive) :
  Z.pos N < 2 ^ 53 ->
  Z.pos (Z.to_pos (Z.pos N * 2 ^ (53 - Z.pos (digits2_pos N))))
  = Z.pos N * 2 ^ (53 - Z.pos (digits2_pos N)).
Proof.
  intro HN. destruct (digits_le_53 N HN).
  apply Z2Pos.id. apply Z.mul_pos_pos; [lia | apply Z.pow_pos_nonneg; lia].
Qed.

Lemma canon_valid (s : bool) (N : positive) :
  Z.pos N < 2 ^ 53 -> valid_binary (canon s N) = true.
Proof.
  intro HN. destruct (digits_le_53 N HN) as [D0 D53].
  unfold canon. cbn [valid_binary]. unfold bounded, canonical_mantissa.
  apply andb_true_intro. split.
  - apply Z.eqb_eq.
    pose proof (digits_shift N (53 - Z.pos (digits2_pos N)) ltac:(lia)) as E.
    rewrite <- (canon_mantissa N HN) in E. cbn [Zdigits2] in E. rewrite E.
    unfold fexp, SpecFloat.emin, prec, emax. lia.
  - apply Z.leb_le. unfold prec, emax. lia.
Qed.

Lemma SF_of_Z_canon (N : positive) :
  Z.pos N < 2 ^ 53 -> SF_of_Z (Z.pos N) = canon false N.
Proof.
  intro HN. destruct (digits_le_53 N HN) as [D0 D53].
  unfold SF_of_Z. cbn [binary_normalize]. unfold binary_round.
  rewrite Z.add_0_r.
  assert (F : fexp prec emax (Z.pos (digits2_pos N)) = Z.pos (digits2_pos N) - 53)
    by (unfold fexp, SpecFloat.emin, prec, emax; lia).
  rewrite F.
  destruct (shl_align N 0 (Z.pos (digits2_pos N) - 53)) as [mz ez] eqn:E.
  assert (E1 : Z.pos mz = Z.pos N * 2 ^ (53 - Z.pos (digits2_pos N))).
  { change mz with (fst (mz, ez)). rewrite <- E.
    rewrite Binary64.shl_align_fst by lia. do 2 f_equal. lia. }
  assert (E2 : ez = - (53 - Z.pos (digits2_pos N))).
  { change ez with (snd (mz, ez)). rewrite <- E. unfold shl_align.
    destruct (Z.pos (digits2_pos N) - 53 - 0) eqn:E3; cbn [snd]; lia. }
  rewrite E1, E2. apply binary_round_aux_exact; [exact HN | lia].
Qed.

Lemma Prim2SF_of_Z (N : positive) :
  Z.pos N < 2 ^ 53 -> Prim2SF (of_Z (Z.pos N)) = canon false N.
Proof.
  intro HN. unfold of_Z. rewrite (SF_of_Z_canon N HN).
  apply Prim2SF_SF2Prim. apply canon_valid. exact HN.
Qed.

Lemma digits_mul_ge (a b : positive) :
  Z.pos (digits2_pos a) + Z.pos (digits2_pos b) - 1 <= Z.pos (digits2_pos (a * b)).
Proof.
  pose proof (Binary64.digits2_pos_bounds a) as [Alo _].
  pose proof (Binary64.digits2_pos_bounds b) as [Blo _].
  pose proof (Binary64.digits2_pos_bounds (a * b)) as [_ Phi].
  set (Da := Z.pos (digits2_pos a)) in *. set (Db := Z.pos (digits2_pos b)) in *.
  set (D := Z.pos (digits2_pos (a * b))) in *.
  destruct (Z.le_gt_cases (Da + Db - 1) D) as [L | G]; [exact L | exfalso].
  assert (Pa : 0 < Da) by (unfold Da; lia).
  assert (Pb : 0 < Db) by (unfold Db; lia).
  assert (Pd : 0 < D) by (unfold D; lia).
  assert (L1 : 2 ^ D <= 2 ^ (Da - 1 + (Db - 1))) by (apply Z.pow_le_mono_r; lia).
  rewrite Z.pow_add_r in L1 by lia.
  assert (Qa : 0 < 2 ^ (Da - 1)) by (apply Z.pow_pos_nonneg; lia).
  assert (Qb : 0 < 2 ^ (Db - 1)) by (apply Z.pow_pos_nonneg; lia).
  rewrite Pos2Z.inj_mul in Phi. nia.
Qed.

(** The product of two positive integers, when below 2^53, is computed
    exactly. *)
Lemma mul_exact_pos (a b : positive) :
  Z.pos (a * b) < 2 ^ 53 ->
  (of_Z (Z.pos a) * of_Z (Z.pos b))%float = of_Z (Z.pos (a * b)).
Proof.
  intro H.
  assert (Ha : Z.pos a < 2 ^ 53) by (rewrite Pos2Z.inj_mul in H; nia).
  assert (Hb : Z.pos b < 2 ^ 53) by (rewrite Pos2Z.inj_mul in H; nia).
  destruct (digits_le_53 a Ha) as [Da0 Da53].
  destruct (digits_le_53 b Hb) as [Db0 Db53].
  destruct (digits_le_53 (a * b) H) as [D0 D53].
  apply Prim2SF_inj. rewrite mul_spec, !Prim2SF_of_Z by assumption.
  unfold SF64mul, canon at 1 2. cbn [SFmul xorb].
  rewrite Pos2Z.inj_mul, !canon_mantissa by assumption.
  set (Da := Z.pos (digits2_pos a)) in *. set (Db := Z.pos (digits2_pos b)) in *.
  replace (Z.pos a * 2 ^ (53 - Da) * (Z.pos b * 2 ^ (53 - Db)))
    with (Z.pos (a * b) * 2 ^ (106 - Da - Db)).
  - replace (Da - 53 + (Db - 53)) with (- (106 - Da - Db)) by lia.
    apply binary_round_aux_exact; [exact H |].
    pose proof (digits_mul_ge a b). fold Da Db in H0. lia.
  - rewrite Pos2Z.inj_mul.
    replace (106 - Da - Db) with (53 - Da + (53 - Db)) by lia.
    rewrite Z.pow_add_r by lia. ring.
Qed.

Lemma digits_mono (a c : positive) :
  Z.pos a <= Z.pos c -> Z.pos (digits2_pos a) <= Z.pos (digits2_pos c).
Proof.
  intro H.
  pose proof (Binary64.digits2_pos_bounds a) as [Alo _].
  pose proof (Binary64.digits2_pos_bounds c) as [_ Chi].
  destruct (Z.le_gt_cases (Z.pos (digits2_pos a)) (Z.pos (digits2_pos c)))
    as [L | G]; [exact L | exfalso].
  assert (2 ^ Z.pos (digits2_pos c) <= 2 ^ (Z.pos (digits2_pos a) - 1))
    by (apply Z.pow_le_mono_r; lia).
  lia.
Qed.

(** The sum of two positive integers, when below 2^53, is computed exactly. *)
Lemma add_exact_pos (a b : positive) :
  Z.pos (a + b) < 2 ^ 53 ->
  (of_Z (Z.pos a) + of_Z (Z.pos b))%float = of_Z (Z.pos (a + b)).
Proof.
  intro H.
  assert (Ha : Z.pos a < 2 ^ 53) by lia.
  assert (Hb : Z.pos b < 2 ^ 53) by lia.
  destruct (digits_le_53 a Ha) as [Da0 Da53].
  destruct (digits_le_53 b Hb) as [Db0 Db53].
  destruct (digits_le_53 (a + b) H) as [D0 D53].
  pose proof (digits_mono a (a + b) ltac:(lia)) as Ma.
  pose proof (digits_mono b (a + b) ltac:(lia)) as Mb.
  apply Prim2SF_inj. rewrite add_spec, !Prim2SF_of_Z by assumption.
  unfold SF64add, canon at 1 2. cbn [SFadd cond_Zopp].
  set (Da := Z.pos (digits2_pos a)) in *. set (Db := Z.pos (digits2_pos b)) in *.
  set (D := Z.pos (digits2_pos (a + b))) in *.
  set (ez := Z.min (Da - 53) (Db - 53)).
  rewrite !Binary64.shl_align_fst by (unfold ez; lia).
  rewrite !canon_mantissa by assumption. fold Da Db.
  replace (Z.pos a * 2 ^ (53 - Da) * 2 ^ (Da - 53 - ez)
           + Z.pos b * 2 ^ (53 - Db) * 2 ^ (Db - 53 - ez))
    with (Z.pos (a + b) * 2 ^ (- ez)).
  2: { rewrite <- !Z.mul_assoc, <- !Z.pow_add_r by (unfold ez; lia).
       replace (53 - Da + (Da - 53 - ez)) with (- ez) by lia.
       replace (53 - Db + (Db - 53 - ez)) with (- ez) by lia.
       rewrite Pos2Z.inj_add. ring. }
  assert (P : 0 < Z.pos (a + b) * 2 ^ (- ez))
    by (apply Z.mul_pos_pos; [lia | apply Z.pow_pos_nonneg; unfold ez; lia]).
  destruct (Z.pos (a + b) * 2 ^ (- ez)) as [| q | q] eqn:E; try lia.
  cbn [binary_normalize]. unfold binary_round.
  assert (Dq : Z.pos (digits2_pos q) = D - ez).
  { pose proof (digits_shift (a + b) (- ez) ltac:(unfold ez; lia)) as Hd.
    rewrite E in Hd. cbn [Zdigits2] in Hd. fold D in Hd. lia. }
  rewrite Dq.
  assert (F : fexp prec emax (D - ez + ez) = D - 53)
    by (unfold fexp, SpecFloat.emin, prec, emax; lia).
  rewrite F. unfold shl_align.
  destruct (D - 53 - ez) as [| n | n] eqn:En; try (unfold ez in En; lia);
    rewrite <- E; replace ez with (- - ez) at 2 by lia;
    apply binary_round_aux_exact; try exact H; fold D; unfold ez; lia.
Qed.

(** The same for the non-negative integers, zero included. *)
Lemma mul_exact (a b : Z) :
  0 <= a < 2 ^ 53 -> 0 <= b < 2 ^ 53 -> a * b < 2 ^ 53 ->
  (of_Z a * of_Z b)%float = of_Z (a * b).
Proof.
  intros Ha Hb H.
  destruct a as [| a | a]; try lia; destruct b as [| b | b]; try lia.
  - reflexivity.
  - apply Prim2SF_inj. rewrite mul_spec, (Prim2SF_of_Z b) by lia. reflexivity.
  - apply Prim2SF_inj. rewrite mul_spec, (Prim2SF_of_Z a) by lia. reflexivity.
  - cbn [Z.mul]. apply mul_exact_pos. exact H.
Qed.

Lemma add_exact (a b : Z) :
  0 <= a -> 0 <= b -> a + b < 2 ^ 53 ->
  (of_Z a + of_Z b)%float = of_Z (a + b).
Proof.
  intros Ha Hb H.
  destruct a as [| a | a]; try lia; destruct b as [| b | b]; try lia.
  - reflexivity.
  - cbn [Z.add]. apply Prim2SF_inj.
    rewrite add_spec, !(Prim2SF_of_Z b) by lia. reflexivity.
  - cbn [Z.add]. apply Prim2SF_inj.
    rewrite add_spec, !(Prim2SF_of_Z a) by lia. reflexivity.
  - cbn [Z.add]. apply add_exact_pos. exact H.
Qed.

End Exact.

Lemma weightedTotal_integer (sig : Signals) (team : MedalTableNOC)
    (g s b gw sw bw : Z) :
  n_Gold team = of_Z g -> n_Silver team = of_Z s -> n_Bronze team = of_Z b ->
  parseInt (goldWeight sig) = of_Z gw ->
  parseInt (silverWeight sig) = of_Z sw ->
  parseInt (bronzeWeight sig) = of_Z bw ->
  (0 <= g < 2 ^ 53)%Z -> (0 <= s < 2 ^ 53)%Z -> (0 <= b < 2 ^ 53)%Z ->
  (0 <= gw < 2 ^ 53)%Z -> (0 <= sw < 2 ^ 53)%Z -> (0 <= bw < 2 ^ 53)%Z ->
  (g * gw + s * sw + b * bw < 2 ^ 53)%Z ->
  weightedTotal sig team = of_Z (g * gw + s * sw + b * bw).
Proof.
  intros Eg Es Eb Egw Esw Ebw Hg Hs Hb Hgw Hsw Hbw Htot.
  unfold weightedTotal. rewrite Eg, Es, Eb, Egw, Esw, Ebw.
  assert (0 <= g * gw)%Z by nia. assert (0 <= s * sw)%Z by nia.
  assert (0 <= b * bw)%Z by nia.
  rewrite !Exact.mul_exact by lia.
  rewrite !Exact.add_exact by lia. reflexivity.
Qed.

(** X16: for integer medal counts and weights (each below 2^53, with a total
    below 2^53), the weighted total of lines 395-397 and 402-404 is the
    exact integer gold * gw + silver * sw + bronze * bw, and without
    normalisation the points cell prints that Number. *)
Theorem weightedTotal_exact (population : string -> option float)
    (sig : Signals) (team : MedalTableNOC) (g s b gw sw bw : Z) :
  n_Gold team = of_Z g -> n_Silver team = of_Z s -> n_Bronze team = of_Z b ->
  parseInt (goldWeight sig) = of_Z gw ->
  parseInt (silverWeight sig) = of_Z sw ->
  parseInt (bronzeWeight sig) = of_Z bw ->
  (0 <= g < 2 ^ 53)%Z -> (0 <= s < 2 ^ 53)%Z -> (0 <= b < 2 ^ 53)%Z ->
  (0 <= gw < 2 ^ 53)%Z -> (0 <= sw < 2 ^ 53)%Z -> (0 <= bw < 2 ^ 53)%Z ->
  (g * gw + s * sw + b * bw < 2 ^ 53)%Z ->
  weightedTotal sig team = of_Z (g * gw + s * sw + b * bw) /\
  (divideByPopulation sig = false ->
   pointsCell population sig team = Number_toString (of_Z (g * gw + s * sw + b * bw))).
Proof.
  intros Eg Es Eb Egw Esw Ebw Hg Hs Hb Hgw Hsw Hbw Htot.
  assert (T : weightedTotal sig team = of_Z (g * gw + s * sw + b * bw))
    by (apply weightedTotal_integer; assumption).
  split; [exact T |].
  intro Hd. unfold pointsCell. rewrite Hd, T. reflexivity.
Qed.

Lemma weightedTotal_exact_witness :
  weightedTotal Sample.defaults Sample.B = of_Z (0 * 3 + 3 * 2 + 3 * 1) /\
  (divideByPopulation Sample.defaults = false ->
   pointsCell Sample.population Sample.defaults Sample.B
   = Number_toString (of_Z (0 * 3 + 3 * 2 + 3 * 1))).
Proof.
  apply (weightedTotal_exact Sample.population Sample.defaults Sample.B
           0 3 3 3 2 1); try reflexivity; lia.
Defined.

(** ** The points shown *)

(** The Numbers of the integers from 0 to 3000 print as their digits. *)
Lemma small_integers_print : forallb prints_decimal (seq 0 3001) = true.
Proof.
  vm_compute. reflexivity.
Qed.

Lemma Number_toString_small (n : Z) :
  (0 <= n <= 3000)%Z -> Number_toString (of_Z n) = string_of_Z n.
Proof.
  intro H.
  pose proof (proj1 (forallb_forall _ _) small_integers_print (Z.to_nat n)) as P.
  unfold prints_decimal in P. rewrite Z2Nat.id in P by lia.
  apply String.eqb_eq. apply P. apply in_seq. lia.
Qed.

(** X18: for integer medal counts and the slider weights 0 to 10, with a
    weighted total of at most 3000, the points cell without normalisation
    shows the decimal digits of gold * gw + silver * sw + bronze * bw. *)
Theorem pointsCell_decimal (population : string -> option float)
    (sig : Signals) (team : MedalTableNOC) (g s b gw sw bw : Z) :
  n_Gold team = of_Z g -> n_Silver team = of_Z s -> n_Bronze team = of_Z b ->
  goldWeight sig = string_of_Z gw ->
  silverWeight sig = string_of_Z sw ->
  bronzeWeight sig = string_of_Z bw ->
  divideByPopulation sig = false ->
  (0 <= g)%Z -> (0 <= s)%Z -> (0 <= b)%Z ->
  (0 <= gw <= 10)%Z -> (0 <= sw <= 10)%Z -> (0 <= bw <= 10)%Z ->
  (g * gw + s * sw + b * bw <= 3000)%Z ->
  (g < 2 ^ 53)%Z -> (s < 2 ^ 53)%Z -> (b < 2 ^ 53)%Z ->
  pointsCell population sig team = string_of_Z (g * gw + s * sw + b * bw).
Proof.
  intros Eg Es Eb Egw Esw Ebw Hd Hg Hs Hb Hgw Hsw Hbw Htot Bg Bs Bb.
  assert (P53 : (3000 < 2 ^ 53)%Z) by reflexivity.
  assert (T10 : (10 < 2 ^ 53)%Z) by reflexivity.
  unfold pointsCell. rewrite Hd.
  rewrite (weightedTotal_integer sig team g s b gw sw bw); try assumption;
    try (rewrite ?Egw, ?Esw, ?Ebw; apply parseInt_string_of_Z; assumption);
    try lia.
  apply Number_toString_small. nia.
Qed.

Lemma pointsCell_decimal_witness :
  pointsCell Sample.population Sample.defaults Sample.B
  = string_of_Z (0 * 3 + 3 * 2 + 3 * 1).
Proof.
  apply (pointsCell_decimal Sample.population Sample.defaults Sample.B
           0 3 3 3 2 1); try reflexivity; lia.
Defined.
